(** * Convolutional RBM activations, energies and dynamic RBM initialisation

    A shallow embedding of [dll/rbm/standard_crbm.hpp] and
    [dll/rbm/dyn_rbm.inl].

    Conventions of the embedding.
    - The template parameter [weight] (float or double) is idealised as
      the real numbers [R]; rounding is not modelled.
    - ETL tensors are nested lists in row-major order; a tensor of the
      right shape is characterised by the [shape] predicates below.
    - The pseudo-random engine behind ETL's sampling operations is an
      explicit stream of draws with a cursor, threaded through every
      operation that samples. *)

From Stdlib Require Import Reals Lra Lia List Bool Arith.
Import ListNotations.
Local Open Scope R_scope.

(** * Unit kinds *)

(** Modelled from the spec: [unit_type.hpp] is not among the sources.
    The kinds are those named by the specification of the unit
    activation module. *)
Inductive unit_type : Set := BINARY | GAUSSIAN | RELU | RELU6 | RELU1.

Definition unit_type_eqb (x y : unit_type) : bool :=
  match x, y with
  | BINARY, BINARY | GAUSSIAN, GAUSSIAN | RELU, RELU
  | RELU6, RELU6 | RELU1, RELU1 => true
  | _, _ => false
  end.

(** Modelled from the spec: [is_relu] holds of the rectified-linear
    kinds (declared next to [unit_type]). *)
Definition is_relu (t : unit_type) : bool :=
  match t with
  | RELU | RELU6 | RELU1 => true
  | _ => false
  end.

(** * The tensor operations used by the layer *)

Module etl.

Definition vec := list R.
Definition mat := list vec.
Definition tensor3 := list mat.
Definition tensor4 := list tensor3.

(** Building a list from an index function, and finite sums. *)
Definition tab {A : Type} (n : nat) (f : nat -> A) : list A :=
  map f (seq 0 n).

Fixpoint rsum (n : nat) (f : nat -> R) : R :=
  match n with
  | O => 0
  | S k => rsum k f + f k
  end.

(** Element access; reading outside a tensor yields 0. *)
Definition at1 (v : vec) (i : nat) : R := nth i v 0.
Definition at2 (m : mat) (i j : nat) : R := at1 (nth i m []) j.
Definition at3 (t : tensor3) (k i j : nat) : R := at2 (nth k t []) i j.
Definition at4 (t : tensor4) (n k i j : nat) : R := at3 (nth n t []) k i j.

(** Dimensions, read off the first sub-tensor as [etl::dim<N>] does for
    a rectangular tensor. *)
Definition dim0 {A : Type} (t : list A) : nat := length t.
Definition dim1 {A : Type} (t : list (list A)) : nat := length (hd [] t).
Definition dim2 {A : Type} (t : list (list (list A))) : nat :=
  length (hd [] (hd [] t)).
Definition dim3 {A : Type} (t : list (list (list (list A)))) : nat :=
  length (hd [] (hd [] (hd [] t))).

(** Rectangular tensors of given dimensions. *)
Definition shape1 (n : nat) (v : vec) : Prop := length v = n.
Definition shape2 (n1 n2 : nat) (m : mat) : Prop :=
  length m = n1 /\ Forall (shape1 n2) m.
Definition shape3 (n0 n1 n2 : nat) (t : tensor3) : Prop :=
  length t = n0 /\ Forall (shape2 n1 n2) t.
Definition shape4 (n n0 n1 n2 : nat) (t : tensor4) : Prop :=
  length t = n /\ Forall (shape3 n0 n1 n2) t.

(** Element-wise predicates. *)
Definition all3 (Q : R -> Prop) (t : tensor3) : Prop :=
  Forall (Forall (Forall Q)) t.
Definition all4 (Q : R -> Prop) (t : tensor4) : Prop := Forall (all3 Q) t.

(** Element-wise unary and binary expressions. *)
Fixpoint zipw {A B C : Type} (f : A -> B -> C) (l : list A) (l' : list B)
  : list C :=
  match l, l' with
  | x :: r, y :: r' => f x y :: zipw f r r'
  | _, _ => []
  end.

Definition map2 (f : R -> R) : mat -> mat := map (map f).
Definition map3 (f : R -> R) : tensor3 -> tensor3 := map (map2 f).
Definition map4 (f : R -> R) : tensor4 -> tensor4 := map (map3 f).

Definition zip1 (f : R -> R -> R) : vec -> vec -> vec := zipw f.
Definition zip2 (f : R -> R -> R) : mat -> mat -> mat := zipw (zip1 f).
Definition zip3 (f : R -> R -> R) : tensor3 -> tensor3 -> tensor3 :=
  zipw (zip2 f).
Definition zip4 (f : R -> R -> R) : tensor4 -> tensor4 -> tensor4 :=
  zipw (zip3 f).

(** [etl::sum]: the sum of all the elements. *)
Definition sum1 (v : vec) : R := fold_right Rplus 0 v.
Definition sum2 (m : mat) : R := sum1 (map sum1 m).
Definition sum3 (t : tensor3) : R := sum1 (map sum2 t).
Definition sum4 (t : tensor4) : R := sum1 (map sum3 t).

(** [etl::sum_r]: the vector of the sums of the sub-tensors along the
    first dimension. *)
Definition sum_r (t : tensor3) : vec := map sum2 t.

(** [etl::rep<D1, D2>(v)]: every element of [v] replicated over a
    [D1 x D2] map; [etl::rep_l(t, n)]: [n] copies of [t] in front. *)
Definition rep (d1 d2 : nat) (v : vec) : tensor3 :=
  map (fun x => repeat (repeat x d2) d1) v.
Definition rep_l (n : nat) (t : tensor3) : tensor4 := repeat t n.

(** Scalar functions. *)
Definition sigmoid (x : R) : R := 1 / (1 + exp (- x)).
Definition log1pexp (x : R) : R := ln (1 + exp x).
Definition pow2 (x : R) : R := x * x.

(** [etl::conv_4d_valid_flipped(input, kernel)]: for every image [n] and
    every filter [k], the sum over the channels [c] of the valid 2-D
    convolution of [input(n)(c)] with the already flipped kernel
    [kernel(k)(c)], that is their valid cross-correlation. *)
Definition conv_4d_valid_flipped (input kernel : tensor4) : tensor4 :=
  tab (dim0 input) (fun n =>
  tab (dim0 kernel) (fun k =>
  tab (dim2 input + 1 - dim2 kernel) (fun i =>
  tab (dim3 input + 1 - dim3 kernel) (fun j =>
    rsum (dim1 kernel) (fun c =>
    rsum (dim2 kernel) (fun p =>
    rsum (dim3 kernel) (fun q =>
      at4 input n c (i + p) (j + q) * at4 kernel k c p q))))))).

(** [etl::conv_4d_full(input, kernel)]: for every image [n] and every
    channel [c], the sum over the filters [k] of the full 2-D convolution
    of [input(n)(k)] with [kernel(k)(c)]. *)
Definition conv_4d_full (input kernel : tensor4) : tensor4 :=
  tab (dim0 input) (fun n =>
  tab (dim1 kernel) (fun c =>
  tab (dim2 input + dim2 kernel - 1) (fun i =>
  tab (dim3 input + dim3 kernel - 1) (fun j =>
    rsum (dim0 kernel) (fun k =>
    rsum (dim2 kernel) (fun p =>
    rsum (dim3 kernel) (fun q =>
      (if (p <=? i)%nat && (q <=? j)%nat
       then at4 input n k (i - p) (j - q) else 0)
      * at4 kernel k c p q))))))).

(** ** The random engine *)

(** The draws that the engine will deliver, read as uniform variates of
    [0,1) or as standard normal variates, and the number of draws
    consumed so far. *)
Record random_engine : Type := mk_engine {
  cursor : nat;
  uniform_real : nat -> R;
  normal : nat -> R
}.

Definition advance (e : random_engine) : random_engine :=
  {| cursor := S (cursor e);
     uniform_real := uniform_real e;
     normal := normal e |}.

(** A sampling operation on one element. *)
Definition sampler : Type := R -> random_engine -> R * random_engine.

(** [etl::bernoulli]: 1 when the probability exceeds a uniform draw. *)
Definition bernoulli : sampler := fun x e =>
  ((if Rlt_dec (uniform_real e (cursor e)) x then 1 else 0), advance e).

(** [etl::normal_noise]: a standard normal draw added to the value. *)
Definition normal_noise : sampler := fun x e =>
  (x + normal e (cursor e), advance e).

(** Element-wise sampling, in row-major order. *)
Fixpoint mapS {A B : Type} (f : A -> random_engine -> B * random_engine)
  (l : list A) (e : random_engine) : list B * random_engine :=
  match l with
  | [] => ([], e)
  | x :: r =>
      let (y, e1) := f x e in
      let (ys, e2) := mapS f r e1 in
      (y :: ys, e2)
  end.

Definition sample3 (f : sampler) : tensor3 -> random_engine -> tensor3 * random_engine :=
  mapS (mapS (mapS f)).
Definition sample4 (f : sampler) : tensor4 -> random_engine -> tensor4 * random_engine :=
  mapS (sample3 f).

(** The engine [e'] is the engine [e] after [n] further draws. *)
Definition advanced (n : nat) (e e' : random_engine) : Prop :=
  cursor e' = (cursor e + n)%nat
  /\ uniform_real e' = uniform_real e
  /\ normal e' = normal e.

(** Finite products, and the product of the factors that a list of
    position-dependent weights gives to the elements of a list. *)
Fixpoint rprod (n : nat) (f : nat -> R) : R :=
  match n with
  | O => 1
  | S k => rprod k f * f k
  end.

Fixpoint prodw {A : Type} (phi : nat -> A -> R) (l : list A) : R :=
  match l with
  | [] => 1
  | x :: l' => phi O x * prodw (fun i => phi (S i)) l'
  end.

(** All the lists of length [n] over an alphabet, and all the tensors of
    given dimensions with elements 0 or 1. *)
Fixpoint words {A : Type} (alphabet : list A) (n : nat) : list (list A) :=
  match n with
  | O => [[]]
  | S k => flat_map (fun x => map (cons x) (words alphabet k)) alphabet
  end.

Definition binary_tensors (n0 n1 n2 : nat) : list tensor3 :=
  words (words (words [0; 1] n2) n1) n0.

End etl.

(** * The convolutional RBM *)

Module crbm.
Import etl.

(** The compile-time description of a layer: unit kinds, number of
    channels, size of the visible maps, number of filters and size of
    the hidden maps. *)
Record descriptor : Set := {
  visible_unit : unit_type;
  hidden_unit : unit_type;
  NC : nat;
  NV1 : nat;
  NV2 : nat;
  K : nat;
  NH1 : nat;
  NH2 : nat
}.

(** The size of the kernels follows from the visible and hidden sizes. *)
Definition NW1 (d : descriptor) : nat := NV1 d - NH1 d + 1.
Definition NW2 (d : descriptor) : nat := NV2 d - NH2 d + 1.

(** The reconstruction buffers, named after the position in the Gibbs
    chain. *)
Inductive buffer : Set := v1 | h1_a | h1_s | v2_a | v2_s | h2_a | h2_s.

Definition buffer_eqb (x y : buffer) : bool :=
  match x, y with
  | v1, v1 | h1_a, h1_a | h1_s, h1_s | v2_a, v2_a | v2_s, v2_s
  | h2_a, h2_a | h2_s, h2_s => true
  | _, _ => false
  end.

(** A layer: the parameters and the buffers.  [T] is [tensor3] for the
    buffers of one sample and [tensor4] for those of a batch. *)
Record layer (T : Type) : Type := mk_layer {
  w : tensor4;
  b : vec;
  c : vec;
  mem : buffer -> T
}.
Arguments mk_layer {T} _ _ _ _.
Arguments w {T} _.
Arguments b {T} _.
Arguments c {T} _.
Arguments mem {T} _ _.

Definition load {T : Type} (r : layer T) (x : buffer) : T := mem r x.

Definition store {T : Type} (x : buffer) (t : T) (r : layer T) : layer T :=
  {| w := w r; b := b r; c := c r;
     mem := fun y => if buffer_eqb x y then t else mem r y |}.

(** The result of running an operation: normal completion, abort on a
    failed numeric check, or rejection at compile time. *)
Inductive outcome (A : Type) : Type :=
| Done (a : A)
| Fatal
| Rejected.
Arguments Done {A} a.
Arguments Fatal {A}.
Arguments Rejected {A}.

Definition state (T : Type) : Type := (layer T * random_engine)%type.
Definition stmt (T : Type) : Type := state T -> outcome (state T).

Definition skip {T : Type} : stmt T := fun st => Done st.

Definition andThen {T : Type} (s1 s2 : stmt T) : stmt T := fun st =>
  match s1 st with
  | Done st' => s2 st'
  | Fatal => Fatal
  | Rejected => Rejected
  end.
Notation "s1 ;; s2" := (andThen s1 s2) (at level 61, right associativity).

Definition static_assert {T : Type} (cond : bool) : stmt T := fun st =>
  if cond then Done st else Rejected.

(** [dst = rhs] for an expression that does not sample, and for one that
    does. *)
Definition assign {T : Type} (dst : buffer) (rhs : layer T -> T) : stmt T :=
  fun st => Done (store dst (rhs (fst st)) (fst st), snd st).

Definition assign_sampled {T : Type} (dst : buffer)
  (rhs : layer T -> random_engine -> T * random_engine) : stmt T :=
  fun st =>
    let (t, e) := rhs (fst st) (snd st) in Done (store dst t (fst st), e).

Definition when {T : Type} (cond : bool) (s : stmt T) : stmt T :=
  if cond then s else skip.

(** ** Vocabulary for the properties *)

(** The parameters of two layers are the same. *)
Definition same_params {T : Type} (r r' : layer T) : Prop :=
  w r' = w r /\ b r' = b r /\ c r' = c r.

(** [r'] differs from [r] at most in the buffers [out1] and [out2]. *)
Definition frame {T : Type} (out1 out2 : buffer) (r r' : layer T) : Prop :=
  same_params r r' /\
  forall x, x <> out1 -> x <> out2 -> load r' x = load r x.

(** Two layers with the same parameters and the same buffer contents. *)
Definition agree {T : Type} (r r' : layer T) : Prop :=
  same_params r r' /\ forall x, load r' x = load r x.

(** Every normal completion of [s] relates the states by [Q]. *)
Definition ensures {T : Type} (Q : state T -> state T -> Prop) (s : stmt T)
  : Prop :=
  forall st st', s st = Done st' -> Q st st'.

(** The frame relation between states, and a property of the content of
    one buffer. *)
Definition frame_rel {T : Type} (out1 out2 : buffer) (st st' : state T) : Prop :=
  frame out1 out2 (fst st) (fst st').
Definition holds_at {T : Type} (x : buffer) (Q : T -> Prop) (st : state T)
  : Prop :=
  Q (load (fst st) x).

(** Every normal completion of [s] ends in a state satisfying [I]; and
    [s] keeps [I] when it completes normally. *)
Definition establishes {T : Type} (I : state T -> Prop) (s : stmt T) : Prop :=
  forall st st', s st = Done st' -> I st'.
Definition preserves {T : Type} (I : state T -> Prop) (s : stmt T) : Prop :=
  forall st st', s st = Done st' -> I st -> I st'.

Section Layer.

Variable desc : descriptor.

(** The check behind [std::isfinite]: the values that the floating-point
    type cannot hold as finite numbers are left open. *)
Variable isfinite : R -> bool.

(** [etl::logistic_noise] and [etl::ranged_noise]: the noise laws of the
    rectified units are those of the tensor library. *)
Variable logistic_noise : sampler.
Variable ranged_noise : R -> sampler.

(** Modelled from the spec: the macros of [rbm_tmp.hpp] are not among the
    sources.  The statement under [H_PROBS] is compiled in when
    probabilities are requested and the hidden unit is the given one. *)
Definition H_PROBS {T : Type} (P : bool) (unit : unit_type) (s : stmt T)
  : stmt T :=
  when (P && unit_type_eqb (hidden_unit desc) unit) s.

(** Modelled from the spec: macro of [rbm_tmp.hpp]; as [H_PROBS], for one
    given visible unit. *)
Definition H_PROBS2 {T : Type} (P : bool) (unit_1 unit_2 : unit_type)
  (s : stmt T) : stmt T :=
  when (P && unit_type_eqb (hidden_unit desc) unit_1
          && unit_type_eqb (visible_unit desc) unit_2) s.

(** Modelled from the spec: macro of [rbm_tmp.hpp]; as [H_PROBS], when
    samples are requested too. *)
Definition H_SAMPLE_PROBS {T : Type} (P S : bool) (unit : unit_type)
  (s : stmt T) : stmt T :=
  when (P && S && unit_type_eqb (hidden_unit desc) unit) s.

(** Modelled from the spec: macro of [rbm_tmp.hpp]; the statement is
    compiled in when probabilities are requested and the visible unit is
    the given one. *)
Definition V_PROBS {T : Type} (P : bool) (unit : unit_type) (s : stmt T)
  : stmt T :=
  when (P && unit_type_eqb (visible_unit desc) unit) s.

(** Modelled from the spec: macro of [rbm_tmp.hpp]; as [V_PROBS], when
    samples are requested too. *)
Definition V_SAMPLE_PROBS {T : Type} (P S : bool) (unit : unit_type)
  (s : stmt T) : stmt T :=
  when (P && S && unit_type_eqb (visible_unit desc) unit) s.

(** Every element of a tensor passes the check. *)
Definition finite3 (t : tensor3) : bool :=
  forallb (forallb (forallb isfinite)) t.
Definition finite4 (t : tensor4) : bool := forallb finite3 t.

(** Modelled from the spec: [nan_check_deep] of [checks.hpp] is not among
    the sources.  Every element of the output is checked for NaN and
    infinity, and a failed check is fatal. *)
Definition nan_check_deep {T : Type} (finite : T -> bool) (x : buffer)
  : stmt T :=
  fun st => if finite (load (fst st) x) then Done st else Fatal.

(** Modelled from the spec: [get_b_rep] of the derived layer is not among
    the sources.  The bias of every filter is replicated over its whole
    hidden map. *)
Definition get_b_rep {T : Type} (r : layer T) : tensor3 :=
  rep (NH1 desc) (NH2 desc) (b r).

(** Modelled from the spec: [get_c_rep] of the derived layer is not among
    the sources.  The bias of every channel is replicated over its whole
    visible map. *)
Definition get_c_rep {T : Type} (r : layer T) : tensor3 :=
  rep (NV1 desc) (NV2 desc) (c r).

(** Modelled from the spec: [get_batch_b_rep] of the derived layer is not
    among the sources.  The replicated hidden bias is broadcast across
    the batch of the argument. *)
Definition get_batch_b_rep {T : Type} (r : layer T) (v_a : tensor4) : tensor4 :=
  rep_l (dim0 v_a) (get_b_rep r).

(** Modelled from the spec: [get_batch_c_rep] of the derived layer is not
    among the sources.  The replicated visible bias is broadcast across
    the batch of the argument. *)
Definition get_batch_c_rep {T : Type} (r : layer T) (h_s : tensor4) : tensor4 :=
  rep_l (dim0 h_s) (get_c_rep r).

(** Modelled from the spec: [reshape_v_a] and [reshape_h_a] of the derived
    layer are not among the sources.  They view one sample as a batch of
    one sample; [first] is the sample of such a batch, as in [tmp(0)]. *)
Definition reshape_v_a (v : tensor3) : tensor4 := [v].
Definition reshape_h_a (h : tensor3) : tensor4 := [h].
Definition first (t : tensor4) : tensor3 := nth 0 t [].

(** The unit laws, on the elements. *)
Definition relu (x : R) : R := Rmax x 0.
Definition relu_capped (cap x : R) : R := Rmin (Rmax x 0) cap.
Definition sigmoid_gaussian (x : R) : R := sigmoid ((1 / (0.1 * 0.1)) * x).

(** ** activate_hidden *)

(** The timer and the validation of the argument types at compile time
    have no counterpart here.  [b_rep] is read before the convolution is
    stored; the statements follow the source in its order. *)
Definition activate_hidden (P S : bool) (h_a h_s v_a v_s : buffer)
  : stmt tensor3 := fun st0 =>
  let b_rep := get_b_rep (fst st0) in
  let pre := fun r => zip3 Rplus b_rep (load r h_a) in
  ( static_assert (unit_type_eqb (hidden_unit desc) BINARY
                   || is_relu (hidden_unit desc)) ;;
    static_assert P ;;
    assign h_a (fun r =>
      first (conv_4d_valid_flipped (reshape_v_a (load r v_a)) (w r))) ;;
    H_SAMPLE_PROBS P S RELU (assign_sampled h_s (fun r e =>
      let (t, e') := sample3 logistic_noise (pre r) e in
      (map3 relu t, e'))) ;;
    H_SAMPLE_PROBS P S RELU6 (assign_sampled h_s (fun r e =>
      let (t, e') := sample3 (ranged_noise 6) (pre r) e in
      (map3 (relu_capped 6) t, e'))) ;;
    H_SAMPLE_PROBS P S RELU1 (assign_sampled h_s (fun r e =>
      let (t, e') := sample3 (ranged_noise 1) (pre r) e in
      (map3 (relu_capped 1) t, e'))) ;;
    H_PROBS2 P BINARY BINARY (assign h_a (fun r => map3 sigmoid (pre r))) ;;
    H_PROBS2 P BINARY GAUSSIAN
      (assign h_a (fun r => map3 sigmoid_gaussian (pre r))) ;;
    H_PROBS P RELU (assign h_a (fun r => map3 relu (pre r))) ;;
    H_PROBS P RELU6 (assign h_a (fun r => map3 (relu_capped 6) (pre r))) ;;
    H_PROBS P RELU1 (assign h_a (fun r => map3 (relu_capped 1) (pre r))) ;;
    H_SAMPLE_PROBS P S BINARY (assign_sampled h_s (fun r e =>
      sample3 bernoulli (load r h_a) e)) ;;
    nan_check_deep finite3 h_a ;;
    when S (nan_check_deep finite3 h_s) ) st0.

(** The entry point for one sample: probabilities only. *)
Definition activate_hidden_one (h_a input : buffer) : stmt tensor3 :=
  activate_hidden true false h_a h_a input input.

(** ** activate_visible *)

Definition activate_visible (P S : bool) (h_a h_s v_a v_s : buffer)
  : stmt tensor3 :=
  static_assert (unit_type_eqb (visible_unit desc) BINARY
                 || unit_type_eqb (visible_unit desc) GAUSSIAN) ;;
  static_assert P ;;
  assign v_a (fun r =>
    first (conv_4d_full (reshape_h_a (load r h_s)) (w r))) ;;
  (fun st1 =>
  let c_rep := get_c_rep (fst st1) in
  let pre := fun r => zip3 Rplus c_rep (load r v_a) in
  ( V_PROBS P BINARY (assign v_a (fun r => map3 sigmoid (pre r))) ;;
    V_PROBS P GAUSSIAN (assign v_a (fun r => pre r)) ;;
    nan_check_deep finite3 v_a ;;
    V_SAMPLE_PROBS P S BINARY (assign_sampled v_s (fun r e =>
      sample3 bernoulli (load r v_a) e)) ;;
    V_SAMPLE_PROBS P S GAUSSIAN (assign_sampled v_s (fun r e =>
      sample3 normal_noise (load r v_a) e)) ;;
    when S (nan_check_deep finite3 v_s) ) st1).

(** ** batch_activate_hidden *)

Definition batch_activate_hidden (P S : bool) (h_a h_s v_a v_s : buffer)
  : stmt tensor4 :=
  static_assert (unit_type_eqb (hidden_unit desc) BINARY
                 || is_relu (hidden_unit desc)) ;;
  static_assert P ;;
  assign h_a (fun r => conv_4d_valid_flipped (load r v_a) (w r)) ;;
  (fun st1 =>
  let b_rep := get_batch_b_rep (fst st1) (load (fst st1) v_a) in
  let pre := fun r => zip4 Rplus b_rep (load r h_a) in
  ( H_SAMPLE_PROBS P S RELU (assign_sampled h_s (fun r e =>
      let (t, e') := sample4 logistic_noise (pre r) e in
      (map4 relu t, e'))) ;;
    H_SAMPLE_PROBS P S RELU6 (assign_sampled h_s (fun r e =>
      let (t, e') := sample4 (ranged_noise 6) (pre r) e in
      (map4 (relu_capped 6) t, e'))) ;;
    H_SAMPLE_PROBS P S RELU1 (assign_sampled h_s (fun r e =>
      let (t, e') := sample4 (ranged_noise 1) (pre r) e in
      (map4 (relu_capped 1) t, e'))) ;;
    H_PROBS2 P BINARY BINARY (assign h_a (fun r => map4 sigmoid (pre r))) ;;
    H_PROBS2 P BINARY GAUSSIAN
      (assign h_a (fun r => map4 sigmoid_gaussian (pre r))) ;;
    H_PROBS P RELU (assign h_a (fun r => map4 relu (pre r))) ;;
    H_PROBS P RELU6 (assign h_a (fun r => map4 (relu_capped 6) (pre r))) ;;
    H_PROBS P RELU1 (assign h_a (fun r => map4 (relu_capped 1) (pre r))) ;;
    nan_check_deep finite4 h_a ;;
    H_SAMPLE_PROBS P S BINARY (assign_sampled h_s (fun r e =>
      sample4 bernoulli (load r h_a) e)) ;;
    when S (nan_check_deep finite4 h_s) ) st1).

(** ** batch_activate_visible *)

Definition batch_activate_visible (P S : bool) (h_a h_s v_a v_s : buffer)
  : stmt tensor4 :=
  static_assert (unit_type_eqb (visible_unit desc) BINARY
                 || unit_type_eqb (visible_unit desc) GAUSSIAN) ;;
  static_assert P ;;
  assign v_a (fun r => conv_4d_full (load r h_s) (w r)) ;;
  (fun st1 =>
  let c_rep := get_batch_c_rep (fst st1) (load (fst st1) h_s) in
  let pre := fun r => zip4 Rplus c_rep (load r v_a) in
  ( V_PROBS P BINARY (assign v_a (fun r => map4 sigmoid (pre r))) ;;
    V_PROBS P GAUSSIAN (assign v_a (fun r => pre r)) ;;
    nan_check_deep finite4 v_a ;;
    V_SAMPLE_PROBS P S BINARY (assign_sampled v_s (fun r e =>
      sample4 bernoulli (load r v_a) e)) ;;
    V_SAMPLE_PROBS P S GAUSSIAN (assign_sampled v_s (fun r e =>
      sample4 normal_noise (load r v_a) e)) ;;
    when S (nan_check_deep finite4 v_s) ) st1).

(** ** energy_impl and free_energy_impl *)

Definition energy_tmp {T : Type} (r : layer T) (v : tensor3) : tensor4 :=
  conv_4d_valid_flipped (reshape_v_a v) (w r).

Definition energy_impl {T : Type} (r : layer T) (v h : tensor3) : R :=
  let tmp := energy_tmp r v in
  if unit_type_eqb (visible_unit desc) BINARY
     && unit_type_eqb (hidden_unit desc) BINARY then
    - sum1 (zip1 Rmult (c r) (sum_r v))
    - sum1 (zip1 Rmult (b r) (sum_r h))
    - sum3 (zip3 Rmult h (first tmp))
  else if unit_type_eqb (visible_unit desc) GAUSSIAN
          && unit_type_eqb (hidden_unit desc) BINARY then
    let c_rep := get_c_rep r in
    - sum3 (map3 (fun x => pow2 x / 2) (zip3 Rminus v c_rep))
    - sum1 (zip1 Rmult (b r) (sum_r h))
    - sum3 (zip3 Rmult h (first tmp))
  else 0.

Definition free_energy_impl {T : Type} (r : layer T) (v : tensor3) : R :=
  let tmp := energy_tmp r v in
  if unit_type_eqb (visible_unit desc) BINARY
     && unit_type_eqb (hidden_unit desc) BINARY then
    let b_rep := get_b_rep r in
    let x := zip3 Rplus b_rep (first tmp) in
    - sum1 (zip1 Rmult (c r) (sum_r v))
    - sum3 (map3 log1pexp x)
  else if unit_type_eqb (visible_unit desc) GAUSSIAN
          && unit_type_eqb (hidden_unit desc) BINARY then
    let b_rep := get_b_rep r in
    let x := zip3 Rplus b_rep (first tmp) in
    let c_rep := get_c_rep r in
    - sum3 (map3 (fun y => pow2 y / 2) (zip3 Rminus v c_rep))
    - sum3 (map3 log1pexp x)
  else 0.

(** ** The pre-activations and the laws of the units *)

Definition hidden_pre {T : Type} (r : layer T) (v : tensor3) : tensor3 :=
  zip3 Rplus (get_b_rep r) (first (conv_4d_valid_flipped (reshape_v_a v) (w r))).

Definition batch_hidden_pre {T : Type} (r : layer T) (v : tensor4) : tensor4 :=
  zip4 Rplus (get_batch_b_rep r v) (conv_4d_valid_flipped v (w r)).

Definition visible_pre {T : Type} (r : layer T) (h : tensor3) : tensor3 :=
  zip3 Rplus (get_c_rep r) (first (conv_4d_full (reshape_h_a h) (w r))).

Definition batch_visible_pre {T : Type} (r : layer T) (h : tensor4) : tensor4 :=
  zip4 Rplus (get_batch_c_rep r h) (conv_4d_full h (w r)).

(** The probability law that the hidden activation applies for a valid
    combination of units. *)
Definition hidden_law : R -> R :=
  match hidden_unit desc with
  | BINARY =>
      if unit_type_eqb (visible_unit desc) GAUSSIAN
      then sigmoid_gaussian else sigmoid
  | RELU => relu
  | RELU6 => relu_capped 6
  | RELU1 => relu_capped 1
  | GAUSSIAN => fun x => x
  end.

(** The probabilities that the visible activation derives from a
    pre-activation. *)
Definition visible_activation (pre : tensor3) : tensor3 :=
  match visible_unit desc with
  | BINARY => map3 sigmoid pre
  | _ => pre
  end.

(** The range of the probabilities of a hidden unit kind. *)
Definition hidden_range (x : R) : Prop :=
  match hidden_unit desc with
  | BINARY => 0 <= x <= 1
  | RELU => 0 <= x
  | RELU6 => 0 <= x <= 6
  | RELU1 => 0 <= x <= 1
  | GAUSSIAN => True
  end.

End Layer.

(** The unit-kind combinations accepted when a layer is configured. *)
Definition valid_units (d : descriptor) : bool :=
  (unit_type_eqb (visible_unit d) BINARY
   || unit_type_eqb (visible_unit d) GAUSSIAN)
  && (unit_type_eqb (hidden_unit d) BINARY || is_relu (hidden_unit d)).

(** The dimensions of a description are positive and the hidden maps are
    not larger than the visible ones. *)
Definition proper (d : descriptor) : Prop :=
  (1 <= NC d)%nat /\ (1 <= K d)%nat /\
  (1 <= NH1 d <= NV1 d)%nat /\ (1 <= NH2 d <= NV2 d)%nat.

(** The parameters of a layer have the dimensions of its description. *)
Definition well_formed {T : Type} (d : descriptor) (r : layer T) : Prop :=
  shape4 (K d) (NC d) (NW1 d) (NW2 d) (w r) /\
  length (b r) = K d /\ length (c r) = NC d.

(** ** Further vocabulary *)

(** The random engine is the same in both states. *)
Definition same_engine {T : Type} (st st' : state T) : Prop :=
  snd st' = snd st.

(** The range of the samples of a hidden unit kind. *)
Definition hidden_sample_range (d : descriptor) (x : R) : Prop :=
  match hidden_unit d with
  | BINARY => x = 0 \/ x = 1
  | RELU => 0 <= x
  | RELU6 => 0 <= x <= 6
  | RELU1 => 0 <= x <= 1
  | GAUSSIAN => True
  end.


(** The samples that the hidden activation draws from a pre-activation
    [pre], with the engine left after them: a BINARY unit samples its
    probability, a rectified unit the pre-activation itself. *)
Definition hidden_sampling (d : descriptor)
  (logistic_noise : sampler) (ranged_noise : R -> sampler)
  (pre : tensor3) (e : random_engine) : tensor3 * random_engine :=
  match hidden_unit d with
  | BINARY => sample3 bernoulli (map3 (hidden_law d) pre) e
  | RELU =>
      let (t, e') := sample3 logistic_noise pre e in (map3 relu t, e')
  | RELU6 =>
      let (t, e') := sample3 (ranged_noise 6) pre e in
      (map3 (relu_capped 6) t, e')
  | RELU1 =>
      let (t, e') := sample3 (ranged_noise 1) pre e in
      (map3 (relu_capped 1) t, e')
  | GAUSSIAN => (pre, e)
  end.

(** The samples that the visible activation draws from its probabilities,
    with the engine left after them. *)
Definition visible_sampling (d : descriptor)
  (probs : tensor3) (e : random_engine) : tensor3 * random_engine :=
  match visible_unit d with
  | BINARY => sample3 bernoulli probs e
  | GAUSSIAN => sample3 normal_noise probs e
  | _ => (probs, e)
  end.

(** The number of units of the hidden and of the visible layer. *)
Definition hidden_units (d : descriptor) : nat := (K d * (NH1 d * NH2 d))%nat.
Definition visible_units (d : descriptor) : nat := (NC d * (NV1 d * NV2 d))%nat.

(** The part of the energy and of the free energy that depends on the
    visible configuration only, for BINARY hidden units. *)
Definition visible_term {T : Type} (d : descriptor) (r : layer T)
  (v : tensor3) : R :=
  if unit_type_eqb (visible_unit d) BINARY
  then - sum1 (zip1 Rmult (c r) (sum_r v))
  else - sum3 (map3 (fun x => pow2 x / 2) (zip3 Rminus v (get_c_rep d r))).

End crbm.

(** * The dynamic RBM *)

Module dyn_rbm.
Import etl.

(** The weights, the biases and their backups.  The reconstruction
    buffers of the layer are allocated by the constructor with the sizes
    below; their content is not specified and they are left out. *)
Record rbm : Type := mk_rbm {
  w : mat;
  b : vec;
  c : vec;
  bak_w : option mat;
  bak_b : option vec;
  bak_c : option vec;
  num_visible : nat;
  num_hidden : nat;
  batch_size : nat
}.

(** [etl::normal_generator]: the successive draws of a generator of
    standard normal variates. *)
Definition normal_generator : Type := nat -> R.

(** Assigning a generator expression to a matrix evaluates it once per
    element, in row-major order. *)
Definition assign_generated (rows cols : nat) (gen : nat -> R) : mat :=
  tab rows (fun i => tab cols (fun j => gen (i * cols + j)%nat)).

(** [dyn_rbm(num_visible, num_hidden)] *)
Definition construct (nv nh : nat) (g : normal_generator) : rbm :=
  {| w := assign_generated nv nh (fun n => g n * 0.1);
     b := repeat 0 nh;
     c := repeat 0 nv;
     bak_w := None;
     bak_b := None;
     bak_c := None;
     num_visible := nv;
     num_hidden := nh;
     batch_size := 25 |}.

(** [init_layer(nv, nh)] *)
Definition init_layer (nv nh : nat) (g : normal_generator) (r : rbm) : rbm :=
  {| w := assign_generated nv nh (fun n => g n * 0.1);
     b := repeat 0 nh;
     c := repeat 0 nv;
     bak_w := bak_w r;
     bak_b := bak_b r;
     bak_c := bak_c r;
     num_visible := nv;
     num_hidden := nh;
     batch_size := batch_size r |}.


(** The elements of a matrix in row-major order, and the empirical
    moments of a sample. *)
Definition flatten (m : mat) : vec := concat m.
Definition mean (l : vec) : R := sum1 l / INR (length l).
Definition variance (l : vec) : R :=
  mean (map (fun x => (x - mean l) * (x - mean l)) l).
Definition std_deviation (l : vec) : R := sqrt (variance l).


End dyn_rbm.

(** * A small layer *)

(** One channel of 2 x 2 visible units, one filter with a 2 x 2 kernel
    and a single hidden unit. *)
Module example.
Import etl crbm.

Definition conv_desc (vis hid : unit_type) : descriptor :=
  {| visible_unit := vis; hidden_unit := hid;
     NC := 1; NV1 := 2; NV2 := 2; K := 1; NH1 := 1; NH2 := 1 |}.

Definition image : tensor3 := [[[1; 0]; [0; 1]]].
Definition kernel : tensor4 := [[[[1; 0]; [0; 1]]]].
Definition feature : tensor3 := [[[1]]].

Definition buffers {T : Type} (vis hid : T) (x : buffer) : T :=
  match x with
  | v1 | v2_a | v2_s => vis
  | h1_a | h1_s | h2_a | h2_s => hid
  end.

Definition one_layer : layer tensor3 :=
  {| w := kernel; b := [1]; c := [1]; mem := buffers image feature |}.

Definition batch_layer : layer tensor4 :=
  {| w := kernel; b := [1]; c := [1]; mem := buffers [image] [feature] |}.

Definition engine : random_engine :=
  {| cursor := 0; uniform_real := fun _ => 1 / 2; normal := fun _ => 0 |}.

Definition any_finite (x : R) : bool := true.
Definition none_finite (x : R) : bool := false.
Definition no_noise : sampler := fun x e => (x, advance e).

End example.

(** * Properties *)

Import etl crbm.

(** ** Scalar laws *)

Lemma sigmoid_pos (x : R) : 0 < sigmoid x.
Proof.
  unfold sigmoid. pose proof (exp_pos (- x)).
  apply Rdiv_lt_0_compat; lra.
Qed.

Lemma sigmoid_lt_1 (x : R) : sigmoid x < 1.
Proof.
  unfold sigmoid. pose proof (exp_pos (- x)) as Hp.
  apply (Rmult_lt_reg_r (1 + exp (- x))); [lra|].
  unfold Rdiv. rewrite Rmult_assoc, Rinv_l; lra.
Qed.

Lemma sigmoid_inj (x y : R) : sigmoid x = sigmoid y -> x = y.
Proof.
  unfold sigmoid. intros H.
  pose proof (exp_pos (- x)) as Hx. pose proof (exp_pos (- y)) as Hy.
  assert (He : exp (- x) = exp (- y)).
  { apply (f_equal Rinv) in H. unfold Rdiv in H.
    rewrite !Rmult_1_l, !Rinv_inv in H. lra. }
  apply exp_inv in He. lra.
Qed.

Lemma sigmoid_gaussian_scaled (x : R) : sigmoid_gaussian x = sigmoid (100 * x).
Proof. unfold sigmoid_gaussian. f_equal. lra. Qed.

Lemma relu_nonneg (x : R) : 0 <= relu x.
Proof. unfold relu. apply Rmax_r. Qed.

Lemma relu_capped_range (cap x : R) :
  0 <= cap -> 0 <= relu_capped cap x <= cap.
Proof.
  intros Hc. unfold relu_capped. split.
  - apply Rmin_glb; [apply Rmax_r | exact Hc].
  - apply Rmin_r.
Qed.

Lemma bernoulli_binary (x : R) (e : random_engine) :
  fst (bernoulli x e) = 0 \/ fst (bernoulli x e) = 1.
Proof. unfold bernoulli. simpl. destruct (Rlt_dec _ _); auto. Qed.

(** ** Element-wise predicates on tensors *)

Lemma Forall_map_all {A B : Type} (Q : B -> Prop) (f : A -> B) (l : list A) :
  (forall x, Q (f x)) -> Forall Q (map f l).
Proof. intros Hf. induction l; simpl; constructor; auto. Qed.

Lemma all3_map3 (Q : R -> Prop) (f : R -> R) (t : tensor3) :
  (forall x, Q (f x)) -> all3 Q (map3 f t).
Proof.
  intros Hf. unfold all3, map3, map2.
  apply Forall_map_all; intros m.
  apply Forall_map_all; intros v.
  apply Forall_map_all; exact Hf.
Qed.

Lemma all4_map4 (Q : R -> Prop) (f : R -> R) (t : tensor4) :
  (forall x, Q (f x)) -> all4 Q (map4 f t).
Proof.
  intros Hf. unfold all4, map4. apply Forall_map_all; intros u.
  apply all3_map3; exact Hf.
Qed.

Lemma Forall_mapS {A B : Type} (Q : B -> Prop)
  (f : A -> random_engine -> B * random_engine) (l : list A) :
  (forall x e, Q (fst (f x e))) ->
  forall e, Forall Q (fst (mapS f l e)).
Proof.
  intros Hf. induction l as [|x l IH]; intros e; simpl.
  - constructor.
  - specialize (Hf x e). destruct (f x e) as [y e1]. specialize (IH e1).
    destruct (mapS f l e1) as [ys e2]. simpl in *. constructor; auto.
Qed.

Lemma all3_sample3 (Q : R -> Prop) (f : sampler) (t : tensor3) (e : random_engine) :
  (forall x e', Q (fst (f x e'))) -> all3 Q (fst (sample3 f t e)).
Proof.
  intros Hf. unfold all3, sample3.
  apply Forall_mapS; intros m e1.
  apply Forall_mapS; intros v e2.
  apply Forall_mapS; exact Hf.
Qed.

Lemma all4_sample4 (Q : R -> Prop) (f : sampler) (t : tensor4) (e : random_engine) :
  (forall x e', Q (fst (f x e'))) -> all4 Q (fst (sample4 f t e)).
Proof.
  intros Hf. unfold all4, sample4.
  apply Forall_mapS; intros u e1. apply all3_sample3; exact Hf.
Qed.

Lemma all3_impl (Q Q' : R -> Prop) (t : tensor3) :
  (forall x, Q x -> Q' x) -> all3 Q t -> all3 Q' t.
Proof.
  intros HQ. unfold all3. intros H.
  eapply Forall_impl; [|exact H]. intros m Hm.
  eapply Forall_impl; [|exact Hm]. intros v Hv.
  eapply Forall_impl; [|exact Hv]. exact HQ.
Qed.

Lemma all4_impl (Q Q' : R -> Prop) (t : tensor4) :
  (forall x, Q x -> Q' x) -> all4 Q t -> all4 Q' t.
Proof.
  intros HQ. unfold all4. intros H.
  eapply Forall_impl; [|exact H]. intros u. apply all3_impl; exact HQ.
Qed.

(** ** Reasoning about statements *)

Lemma buffer_eqb_refl (x : buffer) : buffer_eqb x x = true.
Proof. destruct x; reflexivity. Qed.

Lemma buffer_eqb_eq (x y : buffer) : buffer_eqb x y = true <-> x = y.
Proof. split; [destruct x, y; simpl; congruence | intros ->; apply buffer_eqb_refl]. Qed.

Lemma buffer_eqb_neq (x y : buffer) : buffer_eqb x y = false <-> x <> y.
Proof.
  split.
  - intros H ->. rewrite buffer_eqb_refl in H. discriminate.
  - intros H. destruct (buffer_eqb x y) eqn:E; [|reflexivity].
    apply buffer_eqb_eq in E. contradiction.
Qed.

Lemma load_store_same {T : Type} (x : buffer) (t : T) (r : layer T) :
  load (store x t r) x = t.
Proof. unfold load, store; simpl. now rewrite buffer_eqb_refl. Qed.

Lemma load_store_other {T : Type} (x y : buffer) (t : T) (r : layer T) :
  y <> x -> load (store x t r) y = load r y.
Proof.
  intros H. unfold load, store; simpl.
  destruct (buffer_eqb x y) eqn:E; [|reflexivity].
  apply buffer_eqb_eq in E. congruence.
Qed.

Lemma andThen_Done {T : Type} (s k : stmt T) (st st' : state T) :
  (s ;; k) st = Done st' ->
  exists st1, s st = Done st1 /\ k st1 = Done st'.
Proof.
  unfold andThen. destruct (s st) as [st1| |]; try discriminate.
  intros H. exists st1. split; [reflexivity | exact H].
Qed.

Section Ensures.

Context {T : Type}.
Variable Q : state T -> state T -> Prop.
Hypothesis Q_refl : forall st, Q st st.
Hypothesis Q_trans : forall x y z, Q x y -> Q y z -> Q x z.

Lemma ensures_skip : ensures Q skip.
Proof. intros st st' H. injection H as <-. apply Q_refl. Qed.

Lemma ensures_static_assert (cond : bool) : ensures Q (static_assert cond).
Proof.
  intros st st'. unfold static_assert. destruct cond; [|discriminate].
  intros H. injection H as <-. apply Q_refl.
Qed.

Lemma ensures_nan_check (fin : T -> bool) (x : buffer) :
  ensures Q (nan_check_deep fin x).
Proof.
  intros st st'. unfold nan_check_deep. destruct (fin _); [|discriminate].
  intros H. injection H as <-. apply Q_refl.
Qed.

Lemma ensures_when (cond : bool) (s : stmt T) :
  ensures Q s -> ensures Q (when cond s).
Proof. intros Hs. unfold when. destruct cond; [exact Hs | apply ensures_skip]. Qed.

Lemma ensures_andThen (s k : stmt T) :
  ensures Q s -> ensures Q k -> ensures Q (s ;; k).
Proof.
  intros Hs Hk st st' H. apply andThen_Done in H as (st1 & H1 & H2).
  eapply Q_trans; [apply Hs | apply Hk]; eassumption.
Qed.

End Ensures.

Lemma frame_rel_refl {T : Type} (out1 out2 : buffer) (st : state T) :
  frame_rel out1 out2 st st.
Proof. repeat split. Qed.

Lemma frame_rel_trans {T : Type} (out1 out2 : buffer) (x y z : state T) :
  frame_rel out1 out2 x y -> frame_rel out1 out2 y z -> frame_rel out1 out2 x z.
Proof.
  intros [(Hw & Hb & Hc) Hl] [(Hw' & Hb' & Hc') Hl'].
  split; [repeat split; congruence|].
  intros u H1 H2. rewrite Hl', Hl; auto.
Qed.

Lemma frame_store {T : Type} (out1 out2 dst : buffer) (t : T) (r : layer T) :
  dst = out1 \/ dst = out2 -> frame out1 out2 r (store dst t r).
Proof.
  intros Hd. split; [repeat split|].
  intros x H1 H2. apply load_store_other. destruct Hd; congruence.
Qed.

Lemma ensures_frame_assign {T : Type} (out1 out2 dst : buffer)
  (rhs : layer T -> T) :
  dst = out1 \/ dst = out2 -> ensures (frame_rel out1 out2) (assign dst rhs).
Proof.
  intros Hd st st' H. unfold assign in H. injection H as <-.
  apply frame_store; exact Hd.
Qed.

Lemma ensures_frame_assign_sampled {T : Type} (out1 out2 dst : buffer)
  (rhs : layer T -> random_engine -> T * random_engine) :
  dst = out1 \/ dst = out2 ->
  ensures (frame_rel out1 out2) (assign_sampled dst rhs).
Proof.
  intros Hd st st' H. unfold assign_sampled in H.
  destruct (rhs (fst st) (snd st)) as [t e]. injection H as <-.
  apply frame_store; exact Hd.
Qed.

Ltac frame_steps :=
  repeat first
    [ apply ensures_andThen; [apply frame_rel_trans | | ]
    | apply ensures_static_assert; apply frame_rel_refl
    | apply ensures_nan_check; apply frame_rel_refl
    | apply ensures_when; [apply frame_rel_refl | ]
    | apply ensures_frame_assign; auto
    | apply ensures_frame_assign_sampled; auto ].

Section Invariants.

Context {T : Type}.
Variable I : state T -> Prop.

Lemma establishes_after (s k : stmt T) :
  establishes I k -> establishes I (s ;; k).
Proof.
  intros Hk st st' H. apply andThen_Done in H as (st1 & _ & H2).
  exact (Hk _ _ H2).
Qed.

Lemma establishes_then (s k : stmt T) :
  establishes I s -> preserves I k -> establishes I (s ;; k).
Proof.
  intros Hs Hk st st' H. apply andThen_Done in H as (st1 & H1 & H2).
  exact (Hk _ _ H2 (Hs _ _ H1)).
Qed.

Lemma preserves_andThen (s k : stmt T) :
  preserves I s -> preserves I k -> preserves I (s ;; k).
Proof.
  intros Hs Hk st st' H Hi. apply andThen_Done in H as (st1 & H1 & H2).
  exact (Hk _ _ H2 (Hs _ _ H1 Hi)).
Qed.

Lemma preserves_skip : preserves I skip.
Proof. intros st st' H Hi. injection H as <-. exact Hi. Qed.

Lemma preserves_static_assert (cond : bool) : preserves I (static_assert cond).
Proof.
  intros st st'. unfold static_assert. destruct cond; [|discriminate].
  intros H Hi. injection H as <-. exact Hi.
Qed.

Lemma establishes_static_assert_false : establishes I (static_assert false).
Proof. intros st st' H. discriminate H. Qed.

Lemma preserves_nan_check (fin : T -> bool) (x : buffer) :
  preserves I (nan_check_deep fin x).
Proof.
  intros st st'. unfold nan_check_deep. destruct (fin _); [|discriminate].
  intros H Hi. injection H as <-. exact Hi.
Qed.

Lemma preserves_when (cond : bool) (s : stmt T) :
  preserves I s -> preserves I (when cond s).
Proof. intros Hs. destruct cond; [exact Hs | apply preserves_skip]. Qed.

Lemma establishes_preserves (s : stmt T) : establishes I s -> preserves I s.
Proof. intros Hs st st' H _. exact (Hs _ _ H). Qed.

End Invariants.

Lemma establishes_assign {T : Type} (x : buffer) (Q : T -> Prop)
  (rhs : layer T -> T) :
  (forall r, Q (rhs r)) -> establishes (holds_at x Q) (assign x rhs).
Proof.
  intros Hq st st' H. unfold assign in H. injection H as <-.
  unfold holds_at; simpl fst. rewrite load_store_same. apply Hq.
Qed.

Lemma preserves_assign_sampled {T : Type} (x dst : buffer) (Q : T -> Prop)
  (rhs : layer T -> random_engine -> T * random_engine) :
  (forall r e, Q (fst (rhs r e))) \/ dst <> x ->
  preserves (holds_at x Q) (assign_sampled dst rhs).
Proof.
  intros Hq st st' H Hi. unfold assign_sampled in H.
  assert (Hq' : Q (fst (rhs (fst st) (snd st))) \/ dst <> x)
    by (destruct Hq as [Hq|Hq]; [left; apply Hq | right; exact Hq]).
  destruct (rhs (fst st) (snd st)) as [t e]. injection H as <-.
  unfold holds_at in *; simpl fst.
  destruct (buffer_eqb dst x) eqn:E.
  - apply buffer_eqb_eq in E. subst dst. rewrite load_store_same.
    destruct Hq' as [Hq'|Hq']; [exact Hq' | congruence].
  - apply buffer_eqb_neq in E. rewrite load_store_other; auto.
Qed.

Lemma preserves_assign_other {T : Type} (x dst : buffer) (Q : T -> Prop)
  (rhs : layer T -> T) :
  dst <> x -> preserves (holds_at x Q) (assign dst rhs).
Proof.
  intros Hd st st' H Hi. unfold assign in H. injection H as <-.
  unfold holds_at in *; simpl fst. rewrite load_store_other; auto.
Qed.

Lemma establishes_nan_check {T : Type} (fin : T -> bool) (x : buffer) :
  establishes (holds_at x (fun t => fin t = true)) (nan_check_deep fin x).
Proof.
  intros st st'. unfold nan_check_deep.
  destruct (fin (load (fst st) x)) eqn:E; [|discriminate].
  intros H. injection H as <-. exact E.
Qed.

Ltac as_ensures Q :=
  match goal with
  | |- forall st st', ?s st = Done st' -> _ => change (ensures Q s)
  end.

Lemma agree_store {T : Type} (x : buffer) (t : T) (r1 r2 : layer T) :
  agree r1 r2 -> agree (store x t r1) (store x t r2).
Proof.
  intros [Hp Hl]. split; [exact Hp|].
  intros y. unfold load, store; simpl.
  destruct (buffer_eqb x y); [reflexivity | apply Hl].
Qed.

Lemma agree_store_twice {T : Type} (x : buffer) (t t' : T) (r : layer T) :
  agree (store x t r) (store x t (store x t' r)).
Proof.
  split; [repeat split|].
  intros y. unfold load, store; simpl. destruct (buffer_eqb x y); reflexivity.
Qed.

Section LayerFacts.

Variable desc : descriptor.
Variable isfinite : R -> bool.
Variable logistic_noise : sampler.
Variable ranged_noise : R -> sampler.

Let activate_hidden := activate_hidden desc isfinite logistic_noise ranged_noise.
Let activate_visible := activate_visible desc isfinite.
Let batch_activate_hidden :=
  batch_activate_hidden desc isfinite logistic_noise ranged_noise.
Let batch_activate_visible := batch_activate_visible desc isfinite.

(** *** Frame of the four activations *)

Lemma activate_hidden_frame (P S : bool) (h_a h_s v_a v_s : buffer) :
  ensures (frame_rel h_a h_s) (activate_hidden P S h_a h_s v_a v_s).
Proof.
  intros st. unfold activate_hidden, crbm.activate_hidden.
  unfold H_SAMPLE_PROBS, H_PROBS, H_PROBS2. cbv zeta.
  generalize (get_b_rep desc (fst st)). intros b_rep. revert st.
  as_ensures (@frame_rel tensor3 h_a h_s). frame_steps.
Qed.

Lemma activate_visible_frame (P S : bool) (h_a h_s v_a v_s : buffer) :
  ensures (frame_rel v_a v_s) (activate_visible P S h_a h_s v_a v_s).
Proof.
  unfold activate_visible, crbm.activate_visible.
  unfold V_SAMPLE_PROBS, V_PROBS.
  frame_steps.
  intros st. cbv zeta.
  generalize (get_c_rep desc (fst st)). intros c_rep. revert st.
  as_ensures (@frame_rel tensor3 v_a v_s). frame_steps.
Qed.

Lemma batch_activate_hidden_frame (P S : bool) (h_a h_s v_a v_s : buffer) :
  ensures (frame_rel h_a h_s) (batch_activate_hidden P S h_a h_s v_a v_s).
Proof.
  unfold batch_activate_hidden, crbm.batch_activate_hidden.
  unfold H_SAMPLE_PROBS, H_PROBS, H_PROBS2.
  frame_steps.
  intros st. cbv zeta.
  generalize (get_batch_b_rep desc (fst st) (load (fst st) v_a)).
  intros b_rep. revert st.
  as_ensures (@frame_rel tensor4 h_a h_s). frame_steps.
Qed.

Lemma batch_activate_visible_frame (P S : bool) (h_a h_s v_a v_s : buffer) :
  ensures (frame_rel v_a v_s) (batch_activate_visible P S h_a h_s v_a v_s).
Proof.
  unfold batch_activate_visible, crbm.batch_activate_visible.
  unfold V_SAMPLE_PROBS, V_PROBS.
  frame_steps.
  intros st. cbv zeta.
  generalize (get_batch_c_rep desc (fst st) (load (fst st) h_s)).
  intros c_rep. revert st.
  as_ensures (@frame_rel tensor4 v_a v_s). frame_steps.
Qed.

(** *** Range of the hidden probabilities *)

Lemma sigmoid_unit_interval (x : R) : 0 <= sigmoid x <= 1.
Proof. pose proof (sigmoid_pos x). pose proof (sigmoid_lt_1 x). lra. Qed.

Lemma sigmoid_gaussian_unit_interval (x : R) : 0 <= sigmoid_gaussian x <= 1.
Proof. unfold sigmoid_gaussian. apply sigmoid_unit_interval. Qed.

Lemma bernoulli_unit_interval (x : R) (e : random_engine) :
  0 <= fst (bernoulli x e) <= 1.
Proof. destruct (bernoulli_binary x e) as [-> | ->]; lra. Qed.

Ltac scalar_range :=
  first [ apply sigmoid_unit_interval
        | apply sigmoid_gaussian_unit_interval
        | apply bernoulli_unit_interval
        | apply relu_nonneg
        | apply relu_capped_range; lra
        | exact Logic.I ].

Ltac tensor_range :=
  intros;
  try match goal with
  | |- context [let (_, _) := ?x in _] => destruct x; cbn [fst]
  end;
  first [ apply all3_map3 | apply all4_map4
        | apply all3_sample3 | apply all4_sample4 ];
  intros; scalar_range.

Ltac keep_invariant :=
  repeat first
    [ apply preserves_andThen
    | apply preserves_skip
    | apply preserves_static_assert
    | apply preserves_nan_check
    | apply preserves_when
    | apply preserves_assign_sampled; left; solve [tensor_range] ].

Ltac reach_invariant :=
  first
    [ apply establishes_static_assert_false
    | apply establishes_after; reach_invariant
    | apply establishes_then;
      [ apply establishes_assign; solve [tensor_range]
      | solve [keep_invariant] ] ].

Lemma activate_hidden_range (P S : bool) (h_a h_s v_a v_s : buffer) :
  valid_units desc = true ->
  establishes (holds_at h_a (all3 (hidden_range desc)))
    (activate_hidden P S h_a h_s v_a v_s).
Proof.
  intros Hv st. unfold activate_hidden, crbm.activate_hidden.
  unfold H_SAMPLE_PROBS, H_PROBS, H_PROBS2. cbv zeta.
  generalize (get_b_rep desc (fst st)). intros b_rep. revert st.
  fold (establishes (T:=tensor3) (holds_at h_a (all3 (hidden_range desc)))).
  unfold valid_units in Hv. unfold hidden_range.
  destruct (hidden_unit desc), (visible_unit desc); try discriminate Hv;
    destruct P, S; cbn [when andb orb unit_type_eqb is_relu];
    reach_invariant.
Qed.

Lemma batch_activate_hidden_range (P S : bool) (h_a h_s v_a v_s : buffer) :
  valid_units desc = true ->
  establishes (holds_at h_a (all4 (hidden_range desc)))
    (batch_activate_hidden P S h_a h_s v_a v_s).
Proof.
  intros Hv. unfold batch_activate_hidden, crbm.batch_activate_hidden.
  unfold H_SAMPLE_PROBS, H_PROBS, H_PROBS2.
  unfold valid_units in Hv. unfold hidden_range.
  destruct (hidden_unit desc), (visible_unit desc); try discriminate Hv;
    destruct P, S; cbn [when andb orb unit_type_eqb is_relu];
    try (apply establishes_after; apply establishes_static_assert_false);
    try (apply establishes_static_assert_false);
    do 3 apply establishes_after;
    intros st; cbv zeta;
    generalize (get_batch_b_rep desc (fst st) (load (fst st) v_a));
    intros b_rep; revert st;
    match goal with
    | |- forall st st', ?s st = Done st' -> ?I st' => change (establishes I s)
    end;
    reach_invariant.
Qed.

(** *** The numeric checks *)

Ltac keep_check :=
  repeat first
    [ apply preserves_andThen
    | apply preserves_skip
    | apply preserves_nan_check
    | apply preserves_when
    | apply preserves_assign_sampled; right; assumption ].

Ltac reach_check :=
  first
    [ apply establishes_static_assert_false
    | apply establishes_after; reach_check
    | apply establishes_then; [ apply establishes_nan_check | solve [keep_check] ]
    | apply establishes_nan_check ].

Ltac checked_output x y :=
  destruct (buffer_eqb y x) eqn:E;
  [ apply buffer_eqb_eq in E; subst y | apply buffer_eqb_neq in E ];
  match goal with
  | P : bool, S : bool |- _ =>
      destruct P, S; cbn [when andb]; reach_check
  end.

Lemma activate_hidden_checks_probabilities (P S : bool) (h_a h_s v_a v_s : buffer) :
  establishes (holds_at h_a (fun t => finite3 isfinite t = true))
    (activate_hidden P S h_a h_s v_a v_s).
Proof.
  intros st. unfold activate_hidden, crbm.activate_hidden.
  unfold H_SAMPLE_PROBS, H_PROBS, H_PROBS2. cbv zeta.
  generalize (get_b_rep desc (fst st)). intros b_rep. revert st.
  match goal with
  | |- forall st st', ?s st = Done st' -> ?I st' => change (establishes I s)
  end.
  checked_output h_a h_s.
Qed.

Lemma activate_hidden_checks_samples (P : bool) (h_a h_s v_a v_s : buffer) :
  establishes (holds_at h_s (fun t => finite3 isfinite t = true))
    (activate_hidden P true h_a h_s v_a v_s).
Proof.
  intros st. unfold activate_hidden, crbm.activate_hidden.
  unfold H_SAMPLE_PROBS, H_PROBS, H_PROBS2. cbv zeta.
  generalize (get_b_rep desc (fst st)). intros b_rep. revert st.
  match goal with
  | |- forall st st', ?s st = Done st' -> ?I st' => change (establishes I s)
  end.
  cbn [when]. reach_check.
Qed.

Lemma activate_visible_checks_probabilities (P S : bool) (h_a h_s v_a v_s : buffer) :
  establishes (holds_at v_a (fun t => finite3 isfinite t = true))
    (activate_visible P S h_a h_s v_a v_s).
Proof.
  unfold activate_visible, crbm.activate_visible.
  unfold V_SAMPLE_PROBS, V_PROBS.
  do 3 apply establishes_after.
  intros st. cbv zeta.
  generalize (get_c_rep desc (fst st)). intros c_rep. revert st.
  match goal with
  | |- forall st st', ?s st = Done st' -> ?I st' => change (establishes I s)
  end.
  checked_output v_a v_s.
Qed.

Lemma activate_visible_checks_samples (P : bool) (h_a h_s v_a v_s : buffer) :
  establishes (holds_at v_s (fun t => finite3 isfinite t = true))
    (activate_visible P true h_a h_s v_a v_s).
Proof.
  unfold activate_visible, crbm.activate_visible.
  unfold V_SAMPLE_PROBS, V_PROBS.
  do 3 apply establishes_after.
  intros st. cbv zeta.
  generalize (get_c_rep desc (fst st)). intros c_rep. revert st.
  match goal with
  | |- forall st st', ?s st = Done st' -> ?I st' => change (establishes I s)
  end.
  cbn [when]. reach_check.
Qed.

Lemma batch_activate_hidden_checks_probabilities (P S : bool)
  (h_a h_s v_a v_s : buffer) :
  establishes (holds_at h_a (fun t => finite4 isfinite t = true))
    (batch_activate_hidden P S h_a h_s v_a v_s).
Proof.
  unfold batch_activate_hidden, crbm.batch_activate_hidden.
  unfold H_SAMPLE_PROBS, H_PROBS, H_PROBS2.
  do 3 apply establishes_after.
  intros st; cbv zeta.
  generalize (get_batch_b_rep desc (fst st) (load (fst st) v_a)).
  intros b_rep. revert st.
  match goal with
  | |- forall st st', ?s st = Done st' -> ?I st' => change (establishes I s)
  end.
  checked_output h_a h_s.
Qed.

Lemma batch_activate_hidden_checks_samples (P : bool) (h_a h_s v_a v_s : buffer) :
  establishes (holds_at h_s (fun t => finite4 isfinite t = true))
    (batch_activate_hidden P true h_a h_s v_a v_s).
Proof.
  unfold batch_activate_hidden, crbm.batch_activate_hidden.
  unfold H_SAMPLE_PROBS, H_PROBS, H_PROBS2.
  do 3 apply establishes_after.
  intros st; cbv zeta.
  generalize (get_batch_b_rep desc (fst st) (load (fst st) v_a)).
  intros b_rep. revert st.
  match goal with
  | |- forall st st', ?s st = Done st' -> ?I st' => change (establishes I s)
  end.
  cbn [when]. reach_check.
Qed.

Lemma batch_activate_visible_checks_probabilities (P S : bool)
  (h_a h_s v_a v_s : buffer) :
  establishes (holds_at v_a (fun t => finite4 isfinite t = true))
    (batch_activate_visible P S h_a h_s v_a v_s).
Proof.
  unfold batch_activate_visible, crbm.batch_activate_visible.
  unfold V_SAMPLE_PROBS, V_PROBS.
  do 3 apply establishes_after.
  intros st; cbv zeta.
  generalize (get_batch_c_rep desc (fst st) (load (fst st) h_s)).
  intros c_rep. revert st.
  match goal with
  | |- forall st st', ?s st = Done st' -> ?I st' => change (establishes I s)
  end.
  checked_output v_a v_s.
Qed.

Lemma batch_activate_visible_checks_samples (P : bool) (h_a h_s v_a v_s : buffer) :
  establishes (holds_at v_s (fun t => finite4 isfinite t = true))
    (batch_activate_visible P true h_a h_s v_a v_s).
Proof.
  unfold batch_activate_visible, crbm.batch_activate_visible.
  unfold V_SAMPLE_PROBS, V_PROBS.
  do 3 apply establishes_after.
  intros st; cbv zeta.
  generalize (get_batch_c_rep desc (fst st) (load (fst st) h_s)).
  intros c_rep. revert st.
  match goal with
  | |- forall st st', ?s st = Done st' -> ?I st' => change (establishes I s)
  end.
  cbn [when]. reach_check.
Qed.

(** *** The probabilities computed by the hidden activation *)

Ltac run_activation :=
  unfold andThen, static_assert, skip, assign, assign_sampled, nan_check_deep;
  cbn [fst snd];
  repeat first
    [ rewrite load_store_same
    | match goal with
      | |- context [if ?b then Done _ else Fatal] => destruct b; [|discriminate]
      end
    | progress cbn [fst snd]
    | match goal with
      | |- context [sample3 ?f ?t ?e] => destruct (sample3 f t e)
      | |- context [sample4 ?f ?t ?e] => destruct (sample4 f t e)
      end ];
  let H := fresh in intros H; injection H as <- <-.

Lemma activate_hidden_probabilities (h_a h_s v_a v_s : buffer)
  (r r' : layer tensor3) (e e' : random_engine) :
  valid_units desc = true ->
  activate_hidden true false h_a h_s v_a v_s (r, e) = Done (r', e') ->
  agree (store h_a (map3 (hidden_law desc) (hidden_pre desc r (load r v_a))) r) r'
  /\ e' = e.
Proof.
  intros Hv. unfold activate_hidden, crbm.activate_hidden.
  unfold H_SAMPLE_PROBS, H_PROBS, H_PROBS2, hidden_law, hidden_pre.
  unfold valid_units in Hv.
  destruct (hidden_unit desc), (visible_unit desc); try discriminate Hv;
    cbn [when andb orb unit_type_eqb is_relu];
    run_activation; (split; [apply agree_store_twice | reflexivity]).
Qed.

Lemma activate_hidden_binary (S : bool) (h_a h_s v_a v_s : buffer)
  (r r' : layer tensor3) (e e' : random_engine) :
  hidden_unit desc = BINARY ->
  valid_units desc = true ->
  activate_hidden true S h_a h_s v_a v_s (r, e) = Done (r', e') ->
  let a := map3 (hidden_law desc) (hidden_pre desc r (load r v_a)) in
  if S
  then agree (store h_s (fst (sample3 bernoulli a e)) (store h_a a r)) r'
       /\ e' = snd (sample3 bernoulli a e)
  else agree (store h_a a r) r' /\ e' = e.
Proof.
  intros Hh Hv. unfold activate_hidden, crbm.activate_hidden.
  unfold H_SAMPLE_PROBS, H_PROBS, H_PROBS2, hidden_law, hidden_pre.
  unfold valid_units in Hv. rewrite Hh in *.
  destruct (visible_unit desc); try discriminate Hv;
    destruct S; cbn [when andb orb unit_type_eqb is_relu];
    run_activation;
    (split;
      [ first [ apply agree_store_twice
              | apply agree_store; apply agree_store_twice ]
      | reflexivity ]).
Qed.

Lemma tab_length {A : Type} (n : nat) (f : nat -> A) : length (tab n f) = n.
Proof. unfold tab. now rewrite length_map, length_seq. Qed.

Lemma batch_b_rep_after_conv (h_a v_a : buffer) (r : layer tensor4) :
  let r1 := store h_a (conv_4d_valid_flipped (load r v_a) (w r)) r in
  get_batch_b_rep desc r1 (load r1 v_a) = get_batch_b_rep desc r (load r v_a).
Proof.
  cbv zeta. unfold get_batch_b_rep, get_b_rep. cbn [b store]. f_equal.
  unfold load, store; cbn [mem].
  destruct (buffer_eqb h_a v_a) eqn:E; [|reflexivity].
  apply buffer_eqb_eq in E. subst v_a.
  unfold conv_4d_valid_flipped, dim0. now rewrite tab_length.
Qed.

Lemma batch_activate_hidden_binary (S : bool) (h_a h_s v_a v_s : buffer)
  (r r' : layer tensor4) (e e' : random_engine) :
  hidden_unit desc = BINARY ->
  valid_units desc = true ->
  batch_activate_hidden true S h_a h_s v_a v_s (r, e) = Done (r', e') ->
  let a := map4 (hidden_law desc) (batch_hidden_pre desc r (load r v_a)) in
  if S
  then agree (store h_s (fst (sample4 bernoulli a e)) (store h_a a r)) r'
       /\ e' = snd (sample4 bernoulli a e)
  else agree (store h_a a r) r' /\ e' = e.
Proof.
  intros Hh Hv. unfold batch_activate_hidden, crbm.batch_activate_hidden.
  unfold H_SAMPLE_PROBS, H_PROBS, H_PROBS2, hidden_law, batch_hidden_pre.
  unfold valid_units in Hv. rewrite Hh in *.
  pose proof (batch_b_rep_after_conv h_a v_a r) as Hrep. cbv zeta in Hrep.
  destruct (visible_unit desc); try discriminate Hv;
    destruct S; cbn [when andb orb unit_type_eqb is_relu];
    unfold andThen, static_assert, skip, assign, assign_sampled, nan_check_deep;
    cbn [fst snd]; rewrite Hrep;
    run_activation;
    (split;
      [ first [ apply agree_store_twice
              | apply agree_store; apply agree_store_twice ]
      | reflexivity ]).
Qed.

(** *** The probabilities computed by the visible activation *)

Lemma activate_visible_probabilities (h_a h_s v_a v_s : buffer)
  (r r' : layer tensor3) (e e' : random_engine) :
  valid_units desc = true ->
  activate_visible true false h_a h_s v_a v_s (r, e) = Done (r', e') ->
  agree (store v_a
           (visible_activation desc (visible_pre desc r (load r h_s))) r) r'
  /\ e' = e.
Proof.
  intros Hv. unfold activate_visible, crbm.activate_visible.
  unfold V_SAMPLE_PROBS, V_PROBS, visible_activation, visible_pre.
  unfold valid_units in Hv.
  destruct (visible_unit desc); try discriminate Hv;
    cbn [when andb orb unit_type_eqb is_relu];
    run_activation; (split; [apply agree_store_twice | reflexivity]).
Qed.

End LayerFacts.

(** ** Finite sums *)

Lemma rsum_ext (n : nat) (f g : nat -> R) :
  (forall i, (i < n)%nat -> f i = g i) -> rsum n f = rsum n g.
Proof.
  induction n as [|n IH]; intros H; simpl; [reflexivity|].
  rewrite IH, (H n); auto.
Qed.

Lemma rsum_zero (n : nat) : rsum n (fun _ => 0) = 0.
Proof. induction n as [|n IH]; simpl; [reflexivity | rewrite IH; lra]. Qed.

Lemma rsum_all_zero (n : nat) (f : nat -> R) :
  (forall i, (i < n)%nat -> f i = 0) -> rsum n f = 0.
Proof. intros H. rewrite <- (rsum_zero n). apply rsum_ext, H. Qed.

Lemma rsum_plus (n : nat) (f g : nat -> R) :
  rsum n (fun i => f i + g i) = rsum n f + rsum n g.
Proof. induction n as [|n IH]; simpl; [lra | rewrite IH; lra]. Qed.

Lemma rsum_mult_l (n : nat) (x : R) (f : nat -> R) :
  x * rsum n f = rsum n (fun i => x * f i).
Proof. induction n as [|n IH]; simpl; [lra | rewrite <- IH; lra]. Qed.

Lemma rsum_mult_r (n : nat) (x : R) (f : nat -> R) :
  rsum n f * x = rsum n (fun i => f i * x).
Proof. induction n as [|n IH]; simpl; [lra | rewrite <- IH; lra]. Qed.

Lemma rsum_swap (n m : nat) (f : nat -> nat -> R) :
  rsum n (fun i => rsum m (fun j => f i j))
  = rsum m (fun j => rsum n (fun i => f i j)).
Proof.
  induction n as [|n IH]; simpl.
  - now rewrite rsum_zero.
  - now rewrite rsum_plus, IH.
Qed.

Lemma rsum_shift (n : nat) (f : nat -> R) :
  rsum (S n) f = f O + rsum n (fun i => f (S i)).
Proof.
  induction n as [|n IH].
  - simpl. lra.
  - change (rsum (S (S n)) f) with (rsum (S n) f + f (S n)).
    rewrite IH. simpl. lra.
Qed.

(** Pulling a sum out of a product under two sums. *)
Lemma rsum_pull_l (n m l : nat) (a : nat -> nat -> R) (g : nat -> nat -> nat -> R) :
  rsum n (fun i => rsum m (fun j => a i j * rsum l (fun c => g i j c)))
  = rsum l (fun c => rsum n (fun i => rsum m (fun j => a i j * g i j c))).
Proof.
  transitivity
    (rsum n (fun i => rsum l (fun c => rsum m (fun j => a i j * g i j c)))).
  - apply rsum_ext; intros i _.
    rewrite (rsum_swap l m).
    apply rsum_ext; intros j _. apply rsum_mult_l.
  - apply rsum_swap.
Qed.

Lemma rsum_pull_r (n m l : nat) (a : nat -> nat -> R) (g : nat -> nat -> nat -> R) :
  rsum n (fun i => rsum m (fun j => rsum l (fun c => g i j c) * a i j))
  = rsum l (fun c => rsum n (fun i => rsum m (fun j => g i j c * a i j))).
Proof.
  transitivity
    (rsum n (fun i => rsum l (fun c => rsum m (fun j => g i j c * a i j)))).
  - apply rsum_ext; intros i _.
    rewrite (rsum_swap l m).
    apply rsum_ext; intros j _. apply rsum_mult_r.
  - apply rsum_swap.
Qed.

(** Re-indexing a sum along a shift: the terms with [p <= a] of a sum
    over [a] are those of a sum over [i = a - p]. *)
Lemma rsum_shift_exact (p n : nat) (F : nat -> nat -> R) :
  rsum (p + n) (fun a => if (p <=? a)%nat then F (a - p)%nat a else 0)
  = rsum n (fun i => F i (i + p)%nat).
Proof.
  induction n as [|n IH].
  - rewrite Nat.add_0_r. simpl. apply rsum_all_zero. intros i Hi.
    destruct (p <=? i)%nat eqn:E; [|reflexivity].
    apply Nat.leb_le in E. lia.
  - rewrite Nat.add_succ_r. simpl. rewrite IH.
    assert (E : (p <=? p + n)%nat = true) by (apply Nat.leb_le; lia).
    rewrite E. replace (p + n - p)%nat with n by lia.
    now rewrite (Nat.add_comm p n).
Qed.

Lemma rsum_shift_window (p n N : nat) (F : nat -> nat -> R) :
  (p + n <= N)%nat ->
  (forall i a, (n <= i)%nat -> F i a = 0) ->
  rsum N (fun a => if (p <=? a)%nat then F (a - p)%nat a else 0)
  = rsum n (fun i => F i (i + p)%nat).
Proof.
  intros Hle Hz. rewrite <- rsum_shift_exact.
  replace N with ((p + n) + (N - (p + n)))%nat by lia.
  generalize (N - (p + n))%nat as d. induction d as [|d IH].
  - now rewrite Nat.add_0_r.
  - rewrite Nat.add_succ_r. simpl. rewrite IH.
    destruct (p <=? p + n + d)%nat; [|lra].
    rewrite Hz; [lra | lia].
Qed.

(** ** The valid and the full convolution are adjoint *)

Section ConvAdjoint.

Variables K C m1 m2 h1 h2 : nat.
Variable H : nat -> nat -> nat -> R.
Variable V : nat -> nat -> nat -> R.
Variable W : nat -> nat -> nat -> nat -> R.

Hypothesis H_rows : forall k i j, (h1 <= i)%nat -> H k i j = 0.
Hypothesis H_cols : forall k i j, (h2 <= j)%nat -> H k i j = 0.

(** The contribution of filter [k], channel [c] and kernel position
    [(p, q)] to either pairing. *)
Let contribution (k c p q : nat) : R :=
  rsum h1 (fun i => rsum h2 (fun j =>
    H k i j * (V c (i + p)%nat (j + q)%nat * W k c p q))).

Lemma valid_pairing_contributions :
  rsum K (fun k => rsum h1 (fun i => rsum h2 (fun j =>
    H k i j *
    rsum C (fun c => rsum m1 (fun p => rsum m2 (fun q =>
      V c (i + p)%nat (j + q)%nat * W k c p q))))))
  = rsum K (fun k => rsum C (fun c => rsum m1 (fun p => rsum m2 (fun q =>
      contribution k c p q)))).
Proof.
  apply rsum_ext; intros k _.
  rewrite rsum_pull_l. apply rsum_ext; intros c _.
  rewrite rsum_pull_l. apply rsum_ext; intros p _.
  rewrite rsum_pull_l. reflexivity.
Qed.

Lemma full_pairing_window (k c p q : nat) :
  (p < m1)%nat -> (q < m2)%nat ->
  rsum (h1 + m1 - 1) (fun a => rsum (h2 + m2 - 1) (fun b =>
    (if (p <=? a)%nat && (q <=? b)%nat
     then H k (a - p)%nat (b - q)%nat else 0) * W k c p q * V c a b))
  = contribution k c p q.
Proof.
  intros Hp Hq. unfold contribution.
  pose (G := fun (a i j b : nat) => H k i j * (V c a b * W k c p q)).
  pose (F := fun (i a : nat) =>
    rsum (h2 + m2 - 1) (fun b =>
      if (q <=? b)%nat then G a i (b - q)%nat b else 0)).
  transitivity
    (rsum (h1 + m1 - 1) (fun a =>
       if (p <=? a)%nat then F (a - p)%nat a else 0)).
  - apply rsum_ext; intros a _. unfold F, G.
    destruct (p <=? a)%nat; cbn [andb].
    + apply rsum_ext; intros b _. destruct (q <=? b)%nat; lra.
    + apply rsum_all_zero; intros b _. lra.
  - rewrite (rsum_shift_window p h1); [| lia |].
    + apply rsum_ext; intros i _. unfold F.
      rewrite (rsum_shift_window q h2 _ (G (i + p)%nat i)); [reflexivity | lia |].
      intros j b Hj. unfold G. rewrite H_cols; [lra | exact Hj].
    + intros i a Hi. unfold F. apply rsum_all_zero; intros b _.
      destruct (q <=? b)%nat; [|reflexivity].
      unfold G. rewrite H_rows; [lra | exact Hi].
Qed.

Lemma full_pairing_contributions :
  rsum C (fun c => rsum (h1 + m1 - 1) (fun a => rsum (h2 + m2 - 1) (fun b =>
    rsum K (fun k => rsum m1 (fun p => rsum m2 (fun q =>
      (if (p <=? a)%nat && (q <=? b)%nat
       then H k (a - p)%nat (b - q)%nat else 0) * W k c p q)))
    * V c a b)))
  = rsum K (fun k => rsum C (fun c => rsum m1 (fun p => rsum m2 (fun q =>
      contribution k c p q)))).
Proof.
  rewrite (rsum_swap K C). apply rsum_ext; intros c _.
  rewrite rsum_pull_r. apply rsum_ext; intros k _.
  rewrite rsum_pull_r. apply rsum_ext; intros p Hp.
  rewrite rsum_pull_r. apply rsum_ext; intros q Hq.
  apply full_pairing_window; assumption.
Qed.

Lemma conv_adjoint_sums :
  rsum K (fun k => rsum h1 (fun i => rsum h2 (fun j =>
    H k i j *
    rsum C (fun c => rsum m1 (fun p => rsum m2 (fun q =>
      V c (i + p)%nat (j + q)%nat * W k c p q))))))
  = rsum C (fun c => rsum (h1 + m1 - 1) (fun a => rsum (h2 + m2 - 1) (fun b =>
    rsum K (fun k => rsum m1 (fun p => rsum m2 (fun q =>
      (if (p <=? a)%nat && (q <=? b)%nat
       then H k (a - p)%nat (b - q)%nat else 0) * W k c p q)))
    * V c a b))).
Proof.
  rewrite valid_pairing_contributions, full_pairing_contributions.
  reflexivity.
Qed.

End ConvAdjoint.

(** ** Sums over tensors built from index functions *)

Lemma tab_S {A : Type} (n : nat) (f : nat -> A) :
  tab (S n) f = f O :: tab n (fun i => f (S i)).
Proof.
  unfold tab. simpl. f_equal. rewrite <- seq_shift, map_map. reflexivity.
Qed.

Lemma map_zipw {A B C D : Type} (s : C -> D) (f : A -> B -> C)
  (l : list A) (l' : list B) :
  map s (zipw f l l') = zipw (fun x y => s (f x y)) l l'.
Proof.
  revert l'. induction l as [|x l IH]; intros [|y l']; simpl; try reflexivity.
  now rewrite IH.
Qed.

Lemma zipw_flip {A B C : Type} (f : A -> B -> C) (l : list A) (l' : list B) :
  zipw f l l' = zipw (fun y x => f x y) l' l.
Proof.
  revert l'. induction l as [|x l IH]; intros [|y l']; simpl; try reflexivity.
  now rewrite IH.
Qed.

Lemma sum1_zipw_tab {A B : Type} (f : A -> B -> R) (d : A) (l : list A)
  (n : nat) (g : nat -> B) :
  length l = n ->
  sum1 (zipw f l (tab n g)) = rsum n (fun i => f (nth i l d) (g i)).
Proof.
  intros <-. revert g. induction l as [|x l IH]; intros g.
  - reflexivity.
  - cbn [length]. rewrite tab_S, rsum_shift. cbn [zipw sum1 fold_right nth].
    f_equal. apply IH.
Qed.

Lemma shape3_nth (n0 n1 n2 : nat) (t : tensor3) (k : nat) :
  shape3 n0 n1 n2 t -> (k < n0)%nat -> shape2 n1 n2 (nth k t []).
Proof.
  intros [Hl Hf] Hk. rewrite Forall_forall in Hf. apply Hf, nth_In. lia.
Qed.

Lemma shape2_nth (n1 n2 : nat) (m : mat) (i : nat) :
  shape2 n1 n2 m -> (i < n1)%nat -> shape1 n2 (nth i m []).
Proof.
  intros [Hl Hf] Hi. rewrite Forall_forall in Hf. apply Hf, nth_In. lia.
Qed.

Lemma sum1_tab_zipw {A B : Type} (f : B -> A -> R) (d : A) (l : list A)
  (n : nat) (g : nat -> B) :
  length l = n ->
  sum1 (zipw f (tab n g) l) = rsum n (fun i => f (g i) (nth i l d)).
Proof.
  intros Hl. rewrite zipw_flip.
  now rewrite (sum1_zipw_tab (fun x y => f y x) d l n g Hl).
Qed.

Lemma sum3_zip3_tab (t : tensor3) (n0 n1 n2 : nat) (F : nat -> nat -> nat -> R) :
  shape3 n0 n1 n2 t ->
  sum3 (zip3 Rmult t
          (tab n0 (fun k => tab n1 (fun i => tab n2 (fun j => F k i j)))))
  = rsum n0 (fun k => rsum n1 (fun i => rsum n2 (fun j =>
      at3 t k i j * F k i j))).
Proof.
  intros Ht. unfold sum3, zip3. rewrite map_zipw.
  rewrite (sum1_zipw_tab (A:=mat) (B:=mat) _ []) by apply Ht.
  apply rsum_ext; intros k Hk. cbv beta.
  pose proof (shape3_nth _ _ _ _ _ Ht Hk) as Hm.
  unfold sum2, zip2. rewrite map_zipw.
  rewrite (sum1_zipw_tab (A:=vec) (B:=vec) _ []) by apply Hm.
  apply rsum_ext; intros i Hi. cbv beta.
  pose proof (shape2_nth _ _ _ _ Hm Hi) as Hv.
  unfold zip1. rewrite (sum1_zipw_tab (A:=R) (B:=R) _ 0) by apply Hv.
  reflexivity.
Qed.

Lemma sum3_tab_zip3 (t : tensor3) (n0 n1 n2 : nat) (F : nat -> nat -> nat -> R) :
  shape3 n0 n1 n2 t ->
  sum3 (zip3 Rmult
          (tab n0 (fun k => tab n1 (fun i => tab n2 (fun j => F k i j)))) t)
  = rsum n0 (fun k => rsum n1 (fun i => rsum n2 (fun j =>
      F k i j * at3 t k i j))).
Proof.
  intros Ht. unfold sum3, zip3. rewrite map_zipw.
  rewrite (sum1_tab_zipw (A:=mat) (B:=mat) _ []) by apply Ht.
  apply rsum_ext; intros k Hk. cbv beta.
  pose proof (shape3_nth _ _ _ _ _ Ht Hk) as Hm.
  unfold sum2, zip2. rewrite map_zipw.
  rewrite (sum1_tab_zipw (A:=vec) (B:=vec) _ []) by apply Hm.
  apply rsum_ext; intros i Hi. cbv beta.
  pose proof (shape2_nth _ _ _ _ Hm Hi) as Hv.
  unfold zip1. rewrite (sum1_tab_zipw (A:=R) (B:=R) _ 0) by apply Hv.
  reflexivity.
Qed.

(** Reading outside a rectangular tensor. *)
Lemma at1_nil (j : nat) : at1 [] j = 0.
Proof. destruct j; reflexivity. Qed.

Lemma at2_nil (i j : nat) : at2 [] i j = 0.
Proof. unfold at2. destruct i; apply at1_nil. Qed.

Lemma at3_above_rows (n0 n1 n2 : nat) (t : tensor3) (k i j : nat) :
  shape3 n0 n1 n2 t -> (n1 <= i)%nat -> at3 t k i j = 0.
Proof.
  intros Ht Hi. unfold at3.
  destruct (Nat.lt_ge_cases k n0) as [Hk|Hk].
  - destruct (shape3_nth _ _ _ _ _ Ht Hk) as [Hl _].
    unfold at2. rewrite (nth_overflow (nth k t [])) by lia. apply at1_nil.
  - rewrite nth_overflow by (destruct Ht; lia). apply at2_nil.
Qed.

Lemma at3_above_cols (n0 n1 n2 : nat) (t : tensor3) (k i j : nat) :
  shape3 n0 n1 n2 t -> (n2 <= j)%nat -> at3 t k i j = 0.
Proof.
  intros Ht Hj. unfold at3.
  destruct (Nat.lt_ge_cases k n0) as [Hk|Hk].
  - pose proof (shape3_nth _ _ _ _ _ Ht Hk) as Hm. unfold at2.
    destruct (Nat.lt_ge_cases i n1) as [Hi|Hi].
    + pose proof (shape2_nth _ _ _ _ Hm Hi) as Hv. unfold shape1 in Hv.
      unfold at1. apply nth_overflow. lia.
    + rewrite (nth_overflow (nth k t [])) by (destruct Hm; lia). apply at1_nil.
  - rewrite nth_overflow by (destruct Ht; lia). apply at2_nil.
Qed.

(** ** Dimensions of rectangular tensors *)

Lemma shape3_dims (n0 n1 n2 : nat) (t : tensor3) :
  shape3 n0 n1 n2 t -> (1 <= n0)%nat -> (1 <= n1)%nat ->
  dim0 t = n0 /\ dim1 t = n1 /\ dim2 t = n2.
Proof.
  intros [Hl Hf] H0 H1. unfold dim0, dim1, dim2.
  destruct t as [|m t]; [simpl in Hl; lia|].
  apply Forall_inv in Hf. destruct Hf as [Hm Hr].
  destruct m as [|u m]; [simpl in Hm; lia|].
  apply Forall_inv in Hr. auto.
Qed.

Lemma shape4_dims (n n0 n1 n2 : nat) (t : tensor4) :
  shape4 n n0 n1 n2 t -> (1 <= n)%nat -> (1 <= n0)%nat -> (1 <= n1)%nat ->
  dim0 t = n /\ dim1 t = n0 /\ dim2 t = n1 /\ dim3 t = n2.
Proof.
  intros [Hl Hf] H H0 H1. unfold dim0, dim1, dim2, dim3.
  destruct t as [|u t]; [simpl in Hl; lia|].
  apply Forall_inv in Hf.
  destruct (shape3_dims _ _ _ _ Hf H0 H1) as (E0 & E1 & E2).
  auto.
Qed.

(** The convolutions of one sample, element by element. *)
Lemma first_conv_valid (v : tensor3) (kernel : tensor4) :
  first (conv_4d_valid_flipped (reshape_v_a v) kernel)
  = tab (dim0 kernel) (fun k =>
    tab (dim1 v + 1 - dim2 kernel) (fun i =>
    tab (dim2 v + 1 - dim3 kernel) (fun j =>
      rsum (dim1 kernel) (fun c =>
      rsum (dim2 kernel) (fun p =>
      rsum (dim3 kernel) (fun q =>
        at3 v c (i + p) (j + q) * at4 kernel k c p q)))))).
Proof. reflexivity. Qed.

Lemma first_conv_full (h : tensor3) (kernel : tensor4) :
  first (conv_4d_full (reshape_h_a h) kernel)
  = tab (dim1 kernel) (fun c =>
    tab (dim1 h + dim2 kernel - 1) (fun i =>
    tab (dim2 h + dim3 kernel - 1) (fun j =>
      rsum (dim0 kernel) (fun k =>
      rsum (dim2 kernel) (fun p =>
      rsum (dim3 kernel) (fun q =>
        (if (p <=? i)%nat && (q <=? j)%nat
         then at3 h k (i - p) (j - q) else 0)
        * at4 kernel k c p q)))))).
Proof. reflexivity. Qed.

(** The pairing of the hidden maps with the valid convolution of the
    visible maps is the pairing of the full convolution of the hidden maps
    with the visible maps. *)
Lemma conv_adjoint (nk nc m1 m2 h1 h2 : nat) (v h : tensor3) (kernel : tensor4) :
  (1 <= nk)%nat -> (1 <= nc)%nat -> (1 <= m1)%nat -> (1 <= m2)%nat ->
  (1 <= h1)%nat -> (1 <= h2)%nat ->
  shape3 nk h1 h2 h ->
  shape3 nc (h1 + m1 - 1) (h2 + m2 - 1) v ->
  shape4 nk nc m1 m2 kernel ->
  sum3 (zip3 Rmult h (first (conv_4d_valid_flipped (reshape_v_a v) kernel)))
  = sum3 (zip3 Rmult (first (conv_4d_full (reshape_h_a h) kernel)) v).
Proof.
  intros Hk Hc Hm1 Hm2 Hh1 Hh2 Sh Sv Sw.
  rewrite first_conv_valid, first_conv_full.
  destruct (shape4_dims _ _ _ _ _ Sw Hk Hc Hm1) as (-> & -> & -> & ->).
  destruct (shape3_dims _ _ _ _ Sh Hk Hh1) as (_ & -> & ->).
  destruct (shape3_dims _ _ _ _ Sv Hc) as (_ & -> & ->); [lia|].
  replace (h1 + m1 - 1 + 1 - m1)%nat with h1 by lia.
  replace (h2 + m2 - 1 + 1 - m2)%nat with h2 by lia.
  rewrite (sum3_zip3_tab h nk h1 h2) by exact Sh.
  rewrite (sum3_tab_zip3 v nc (h1 + m1 - 1) (h2 + m2 - 1)) by exact Sv.
  apply (conv_adjoint_sums nk nc m1 m2 h1 h2 (at3 h) (at3 v) (at4 kernel)).
  - intros k i j Hi. eapply at3_above_rows; eassumption.
  - intros k i j Hj. eapply at3_above_cols; eassumption.
Qed.

(** ** Broadcast biases *)

Lemma sum1_repeat_dot (x : R) (n : nat) (u : vec) :
  shape1 n u -> sum1 (zip1 Rmult (repeat x n) u) = x * sum1 u.
Proof.
  unfold shape1. intros <-. induction u as [|y u IH]; simpl; [lra|].
  unfold zip1 in IH. rewrite IH. lra.
Qed.

Lemma sum2_repeat_dot (x : R) (n1 n2 : nat) (m : mat) :
  shape2 n1 n2 m ->
  sum2 (zip2 Rmult (repeat (repeat x n2) n1) m) = x * sum2 m.
Proof.
  intros [<- Hf]. induction m as [|u m IH]; simpl.
  - unfold sum2. simpl. lra.
  - unfold sum2, zip2 in *. simpl.
    rewrite IH by (eapply Forall_inv_tail; exact Hf).
    rewrite sum1_repeat_dot by (eapply Forall_inv; exact Hf). lra.
Qed.

Lemma bias_dot (n1 n2 : nat) (bias : vec) (t : tensor3) :
  shape3 (length bias) n1 n2 t ->
  sum1 (zip1 Rmult bias (sum_r t)) = sum3 (zip3 Rmult (rep n1 n2 bias) t).
Proof.
  intros [Hl Hf]. revert t Hl Hf.
  induction bias as [|x bias IH]; intros [|m t] Hl Hf;
    try discriminate Hl; [reflexivity|].
  unfold sum3, zip3, rep, sum_r, zip1 in *. simpl.
  rewrite sum2_repeat_dot by (eapply Forall_inv; exact Hf).
  f_equal. apply IH; [simpl in Hl; lia | eapply Forall_inv_tail; exact Hf].
Qed.

(** ** The initial parameters of the dynamic RBM *)

Lemma nth_tab {A : Type} (n : nat) (f : nat -> A) (i : nat) (d : A) :
  (i < n)%nat -> nth i (tab n f) d = f i.
Proof.
  intros Hi. unfold tab.
  rewrite (nth_indep _ d (f O)) by (rewrite length_map, length_seq; exact Hi).
  rewrite map_nth, seq_nth; [reflexivity | exact Hi].
Qed.

Lemma seq_from (n m : nat) : seq n m = map (fun j => (n + j)%nat) (seq 0 m).
Proof.
  induction n as [|n IH].
  - simpl. now rewrite map_id.
  - rewrite <- seq_shift, IH, map_map. reflexivity.
Qed.

Lemma tab_app {A : Type} (n m : nat) (f : nat -> A) :
  tab (n + m) f = tab n f ++ tab m (fun j => f (n + j)%nat).
Proof.
  unfold tab. rewrite seq_app, map_app. f_equal.
  cbn [Nat.add]. rewrite (seq_from n m), map_map. reflexivity.
Qed.

Lemma tab_ext {A : Type} (n : nat) (f g : nat -> A) :
  (forall i, (i < n)%nat -> f i = g i) -> tab n f = tab n g.
Proof.
  intros H. unfold tab. apply map_ext_in. intros i Hi.
  apply in_seq in Hi. apply H. lia.
Qed.

Lemma tab_map {A B : Type} (n : nat) (f : nat -> A) (h : A -> B) :
  map h (tab n f) = tab n (fun i => h (f i)).
Proof. unfold tab. apply map_map. Qed.

Lemma assign_generated_shape (rows cols : nat) (gen : nat -> R) :
  shape2 rows cols (dyn_rbm.assign_generated rows cols gen).
Proof.
  unfold dyn_rbm.assign_generated. split.
  - apply tab_length.
  - unfold tab. apply Forall_map_all. intros i. apply tab_length.
Qed.

Lemma assign_generated_at (rows cols : nat) (gen : nat -> R) (i j : nat) :
  (i < rows)%nat -> (j < cols)%nat ->
  at2 (dyn_rbm.assign_generated rows cols gen) i j = gen (i * cols + j)%nat.
Proof.
  intros Hi Hj. unfold at2, at1, dyn_rbm.assign_generated.
  rewrite nth_tab by exact Hi. now rewrite nth_tab by exact Hj.
Qed.

Lemma assign_generated_flatten (rows cols : nat) (gen : nat -> R) :
  dyn_rbm.flatten (dyn_rbm.assign_generated rows cols gen)
  = tab (rows * cols) gen.
Proof.
  unfold dyn_rbm.flatten, dyn_rbm.assign_generated.
  induction rows as [|n IH].
  - reflexivity.
  - replace (S n) with (n + 1)%nat by lia.
    rewrite (tab_app n 1), concat_app, IH.
    replace ((n + 1) * cols)%nat with (n * cols + cols)%nat by lia.
    rewrite (tab_app (n * cols) cols). f_equal.
    cbn [tab seq map concat]. rewrite app_nil_r.
    apply tab_ext. intros j _. f_equal. lia.
Qed.

(** Scaling a sample scales its empirical moments. *)
Lemma sum1_scale (k : R) (l : vec) :
  sum1 (map (fun x => x * k) l) = sum1 l * k.
Proof. induction l as [|x l IH]; simpl; [lra | rewrite IH; lra]. Qed.

Lemma mean_scale (k : R) (l : vec) :
  dyn_rbm.mean (map (fun x => x * k) l) = dyn_rbm.mean l * k.
Proof.
  unfold dyn_rbm.mean. rewrite sum1_scale, length_map.
  unfold Rdiv. ring.
Qed.

Lemma variance_scale (k : R) (l : vec) :
  dyn_rbm.variance (map (fun x => x * k) l) = dyn_rbm.variance l * (k * k).
Proof.
  unfold dyn_rbm.variance. rewrite mean_scale, map_map.
  rewrite <- (mean_scale (k * k)), map_map. f_equal.
  apply map_ext. intros x. ring.
Qed.

Lemma std_deviation_scale (k : R) (l : vec) :
  0 <= k ->
  dyn_rbm.std_deviation (map (fun x => x * k) l) = dyn_rbm.std_deviation l * k.
Proof.
  intros Hk. unfold dyn_rbm.std_deviation. rewrite variance_scale.
  assert (Hv : 0 <= dyn_rbm.variance l).
  { unfold dyn_rbm.variance, dyn_rbm.mean.
    generalize (sum1 l / INR (length l)). intros mu.
    apply Rmult_le_pos.
    - induction l as [|x l IH]; simpl; [lra|].
      pose proof (Rle_0_sqr (x - mu)) as Hs. unfold Rsqr in Hs. lra.
    - rewrite length_map. destruct (length l) eqn:E.
      + simpl. rewrite Rinv_0. lra.
      + left. apply Rinv_0_lt_compat. apply lt_0_INR. lia. }
  rewrite sqrt_mult_alt by exact Hv. f_equal. apply sqrt_square, Hk.
Qed.

(** * The claims *)

(** ** Range of the hidden probabilities *)

(** C7: for a valid combination of units, whenever a hidden activation
    (of one sample or of a batch) completes, every element of its
    probability output lies in the range of the hidden unit kind: [0,1]
    for BINARY, at least 0 for RELU, [0,6] for RELU6 and [0,1] for RELU1. *)
Theorem hidden_probabilities_in_range
  (desc : descriptor) (isfinite : R -> bool)
  (logistic_noise : sampler) (ranged_noise : R -> sampler) :
  valid_units desc = true ->
  (forall P S h_a h_s v_a v_s st st',
     activate_hidden desc isfinite logistic_noise ranged_noise
       P S h_a h_s v_a v_s st = Done st' ->
     all3 (hidden_range desc) (load (fst st') h_a))
  /\
  (forall P S h_a h_s v_a v_s st st',
     batch_activate_hidden desc isfinite logistic_noise ranged_noise
       P S h_a h_s v_a v_s st = Done st' ->
     all4 (hidden_range desc) (load (fst st') h_a)).
Proof.
  intros Hv. split; intros P S h_a h_s v_a v_s st st' H.
  - exact (activate_hidden_range desc isfinite logistic_noise ranged_noise
             P S h_a h_s v_a v_s Hv st st' H).
  - exact (batch_activate_hidden_range desc isfinite logistic_noise ranged_noise
             P S h_a h_s v_a v_s Hv st st' H).
Qed.

Lemma hidden_probabilities_in_range_witness :
  exists st',
    activate_hidden (example.conv_desc BINARY RELU6) example.any_finite
      example.no_noise (fun _ => example.no_noise)
      true true h1_a h1_s v1 v1 (example.one_layer, example.engine) = Done st'
    /\ all3 (fun x => 0 <= x <= 6) (load (fst st') h1_a).
Proof.
  eexists. split; [reflexivity|].
  apply (proj1 (hidden_probabilities_in_range
                  (example.conv_desc BINARY RELU6) example.any_finite
                  example.no_noise (fun _ => example.no_noise) eq_refl)
           true true h1_a h1_s v1 v1 (example.one_layer, example.engine)).
  reflexivity.
Defined.

(** ** The numeric checks *)

(** C8: an activation (hidden or visible, of one sample or of a batch)
    that returns normally has passed the check of its probability output,
    and of its sample output when samples were requested; a value that
    fails the check makes the activation fatal. *)
Theorem activations_check_their_outputs
  (desc : descriptor) (isfinite : R -> bool)
  (logistic_noise : sampler) (ranged_noise : R -> sampler)
  (P S : bool) (h_a h_s v_a v_s : buffer) :
  (forall st st',
     activate_hidden desc isfinite logistic_noise ranged_noise
       P S h_a h_s v_a v_s st = Done st' ->
     finite3 isfinite (load (fst st') h_a) = true /\
     (S = true -> finite3 isfinite (load (fst st') h_s) = true))
  /\
  (forall st st',
     activate_visible desc isfinite P S h_a h_s v_a v_s st = Done st' ->
     finite3 isfinite (load (fst st') v_a) = true /\
     (S = true -> finite3 isfinite (load (fst st') v_s) = true))
  /\
  (forall st st',
     batch_activate_hidden desc isfinite logistic_noise ranged_noise
       P S h_a h_s v_a v_s st = Done st' ->
     finite4 isfinite (load (fst st') h_a) = true /\
     (S = true -> finite4 isfinite (load (fst st') h_s) = true))
  /\
  (forall st st',
     batch_activate_visible desc isfinite P S h_a h_s v_a v_s st = Done st' ->
     finite4 isfinite (load (fst st') v_a) = true /\
     (S = true -> finite4 isfinite (load (fst st') v_s) = true)).
Proof.
  repeat split.
  - eapply activate_hidden_checks_probabilities; eassumption.
  - intros ->. eapply activate_hidden_checks_samples; eassumption.
  - eapply activate_visible_checks_probabilities; eassumption.
  - intros ->. eapply activate_visible_checks_samples; eassumption.
  - eapply batch_activate_hidden_checks_probabilities; eassumption.
  - intros ->. eapply batch_activate_hidden_checks_samples; eassumption.
  - eapply batch_activate_visible_checks_probabilities; eassumption.
  - intros ->. eapply batch_activate_visible_checks_samples; eassumption.
Qed.

Lemma activations_check_their_outputs_witness :
  exists st',
    activate_visible (example.conv_desc GAUSSIAN BINARY) example.any_finite
      true true h1_a h1_s v2_a v2_s (example.one_layer, example.engine)
    = Done st'
    /\ finite3 example.any_finite (load (fst st') v2_a) = true
    /\ finite3 example.any_finite (load (fst st') v2_s) = true.
Proof.
  eexists. split; [reflexivity|].
  destruct (proj1 (proj2 (activations_check_their_outputs
                     (example.conv_desc GAUSSIAN BINARY) example.any_finite
                     example.no_noise (fun _ => example.no_noise)
                     true true h1_a h1_s v2_a v2_s))
              (example.one_layer, example.engine) _ eq_refl) as [Ha Hs].
  split; [exact Ha | exact (Hs eq_refl)].
Defined.

(** A value that the check rejects is fatal. *)
Example rejected_value_is_fatal :
  activate_hidden (example.conv_desc BINARY BINARY) example.none_finite
    example.no_noise (fun _ => example.no_noise)
    true false h1_a h1_s v1 v1 (example.one_layer, example.engine) = Fatal.
Proof. reflexivity. Qed.

(** ** Frame of the activations *)

(** C9: the entry point for one sample leaves in its output the hidden
    probabilities and consumes no draw of the random engine; and an
    activation that returns has changed neither the weights nor the
    biases, nor any buffer other than its two outputs. *)
Theorem activations_only_write_their_outputs
  (desc : descriptor) (isfinite : R -> bool)
  (logistic_noise : sampler) (ranged_noise : R -> sampler) :
  (forall h_a input r e r' e',
     valid_units desc = true ->
     activate_hidden_one desc isfinite logistic_noise ranged_noise
       h_a input (r, e) = Done (r', e') ->
     load r' h_a = map3 (hidden_law desc) (hidden_pre desc r (load r input))
     /\ e' = e)
  /\
  (forall P S h_a h_s v_a v_s st st',
     activate_hidden desc isfinite logistic_noise ranged_noise
       P S h_a h_s v_a v_s st = Done st' ->
     frame h_a h_s (fst st) (fst st'))
  /\
  (forall P S h_a h_s v_a v_s st st',
     activate_visible desc isfinite P S h_a h_s v_a v_s st = Done st' ->
     frame v_a v_s (fst st) (fst st'))
  /\
  (forall P S h_a h_s v_a v_s st st',
     batch_activate_hidden desc isfinite logistic_noise ranged_noise
       P S h_a h_s v_a v_s st = Done st' ->
     frame h_a h_s (fst st) (fst st'))
  /\
  (forall P S h_a h_s v_a v_s st st',
     batch_activate_visible desc isfinite P S h_a h_s v_a v_s st = Done st' ->
     frame v_a v_s (fst st) (fst st')).
Proof.
  split; [|split; [|split; [|split]]].
  - intros h_a input r e r' e' Hv H.
    destruct (activate_hidden_probabilities desc isfinite logistic_noise
                ranged_noise h_a h_a input input r r' e e' Hv H)
      as [[_ Hl] He].
    split; [|exact He]. rewrite Hl. apply load_store_same.
  - intros P S h_a h_s v_a v_s.
    apply (activate_hidden_frame desc isfinite logistic_noise ranged_noise).
  - intros P S h_a h_s v_a v_s. apply (activate_visible_frame desc isfinite).
  - intros P S h_a h_s v_a v_s.
    apply (batch_activate_hidden_frame desc isfinite logistic_noise
             ranged_noise).
  - intros P S h_a h_s v_a v_s.
    apply (batch_activate_visible_frame desc isfinite).
Qed.

Lemma activations_only_write_their_outputs_witness :
  exists r' e',
    activate_hidden_one (example.conv_desc BINARY BINARY) example.any_finite
      example.no_noise (fun _ => example.no_noise)
      h1_a v1 (example.one_layer, example.engine) = Done (r', e')
    /\ load r' h1_a
       = map3 sigmoid
           (hidden_pre (example.conv_desc BINARY BINARY) example.one_layer
              example.image)
    /\ e' = example.engine
    /\ w r' = example.kernel.
Proof.
  eexists. eexists. split; [reflexivity|].
  pose proof (activations_only_write_their_outputs
                (example.conv_desc BINARY BINARY) example.any_finite
                example.no_noise (fun _ => example.no_noise))
    as (Hone & Hframe & _).
  destruct (Hone h1_a v1 example.one_layer example.engine _ _ eq_refl eq_refl)
    as [Hl He].
  split; [exact Hl|]. split; [exact He|].
  destruct (Hframe true false h1_a h1_a v1 v1
              (example.one_layer, example.engine) _ eq_refl)
    as [(Hw & _) _].
  exact Hw.
Defined.

(** ** The law of the binary hidden units *)

(** The pre-activation of the single hidden unit of the small layer. *)
Lemma example_hidden_pre (vis hid : unit_type) :
  hidden_pre (example.conv_desc vis hid) example.one_layer example.image
  = [[[1 + (0 + (0 + (0 + 1 * 1 + 0 * 0) + (0 + 0 * 0 + 1 * 1)))]]].
Proof. reflexivity. Qed.

(** C1, as stated, fails for GAUSSIAN visible units: the probability of
    the binary hidden unit of the small layer is not the sigmoid of its
    pre-activation. *)
Lemma binary_hidden_law_counterexample :
  exists r' e',
    activate_hidden (example.conv_desc GAUSSIAN BINARY) example.any_finite
      example.no_noise (fun _ => example.no_noise)
      true false h1_a h1_s v1 v1 (example.one_layer, example.engine)
    = Done (r', e')
    /\ load r' h1_a
       <> map3 sigmoid
            (hidden_pre (example.conv_desc GAUSSIAN BINARY) example.one_layer
               (load example.one_layer v1)).
Proof.
  eexists. eexists. split; [reflexivity|].
  change (load example.one_layer v1) with example.image.
  rewrite example_hidden_pre.
  cbn -[sigmoid_gaussian sigmoid Rplus Rmult].
  intros H. injection H as H.
  rewrite sigmoid_gaussian_scaled in H. apply sigmoid_inj in H. lra.
Qed.

(** C1, amended: for BINARY hidden units the probability is
    [sigmoid x] when the visible units are BINARY and
    [sigmoid (x / (0.1 * 0.1))], that is [sigmoid (100 * x)], when they are
    GAUSSIAN, where [x] is the bias plus the convolution output; when
    samples are requested the sample is the bernoulli draw of that
    probability, and otherwise no draw is made.  This holds for one
    sample and for a batch. *)
Theorem binary_hidden_law
  (desc : descriptor) (isfinite : R -> bool)
  (logistic_noise : sampler) (ranged_noise : R -> sampler)
  (S : bool) (h_a h_s v_a v_s : buffer) :
  hidden_unit desc = BINARY ->
  valid_units desc = true ->
  let law :=
    if unit_type_eqb (visible_unit desc) GAUSSIAN
    then (fun x => sigmoid (1 / (0.1 * 0.1) * x)) else sigmoid in
  (forall x, sigmoid (1 / (0.1 * 0.1) * x) = sigmoid (100 * x))
  /\
  (forall r e r' e',
     activate_hidden desc isfinite logistic_noise ranged_noise
       true S h_a h_s v_a v_s (r, e) = Done (r', e') ->
     let a := map3 law (hidden_pre desc r (load r v_a)) in
     if S
     then agree (store h_s (fst (sample3 bernoulli a e)) (store h_a a r)) r'
          /\ e' = snd (sample3 bernoulli a e)
     else agree (store h_a a r) r' /\ e' = e)
  /\
  (forall r e r' e',
     batch_activate_hidden desc isfinite logistic_noise ranged_noise
       true S h_a h_s v_a v_s (r, e) = Done (r', e') ->
     let a := map4 law (batch_hidden_pre desc r (load r v_a)) in
     if S
     then agree (store h_s (fst (sample4 bernoulli a e)) (store h_a a r)) r'
          /\ e' = snd (sample4 bernoulli a e)
     else agree (store h_a a r) r' /\ e' = e).
Proof.
  intros Hh Hv law.
  assert (Hlaw : law = hidden_law desc).
  { unfold law, hidden_law. rewrite Hh. reflexivity. }
  rewrite Hlaw. split; [|split].
  - intros x. f_equal. lra.
  - intros r e r' e'.
    apply (activate_hidden_binary desc isfinite logistic_noise ranged_noise
             S h_a h_s v_a v_s r r' e e' Hh Hv).
  - intros r e r' e'.
    apply (batch_activate_hidden_binary desc isfinite logistic_noise
             ranged_noise S h_a h_s v_a v_s r r' e e' Hh Hv).
Qed.

Lemma binary_hidden_law_witness :
  exists r' e',
    activate_hidden (example.conv_desc GAUSSIAN BINARY) example.any_finite
      example.no_noise (fun _ => example.no_noise)
      true true h1_a h1_s v1 v1 (example.one_layer, example.engine)
    = Done (r', e')
    /\ load r' h1_a
       = map3 (fun x => sigmoid (1 / (0.1 * 0.1) * x))
           (hidden_pre (example.conv_desc GAUSSIAN BINARY) example.one_layer
              example.image)
    /\ load r' h1_s = fst (sample3 bernoulli (load r' h1_a) example.engine)
    /\ cursor e' = 1%nat.
Proof.
  eexists. eexists. split; [reflexivity|].
  destruct (binary_hidden_law (example.conv_desc GAUSSIAN BINARY)
              example.any_finite example.no_noise (fun _ => example.no_noise)
              true h1_a h1_s v1 v1 eq_refl eq_refl)
    as (_ & Hone & _).
  destruct (Hone example.one_layer example.engine _ _ eq_refl)
    as [[_ Hl] He].
  split; [|split].
  - rewrite (Hl h1_a). reflexivity.
  - rewrite (Hl h1_s), (Hl h1_a). reflexivity.
  - rewrite He. reflexivity.
Defined.

(** ** Energy and free energy *)

Section Energy.

Variable desc : descriptor.
Context {T : Type}.
Variable r : layer T.
Variables v h : tensor3.

Hypothesis c_length : length (c r) = NC desc.
Hypothesis b_length : length (b r) = K desc.
Hypothesis v_shape : shape3 (NC desc) (NV1 desc) (NV2 desc) v.
Hypothesis h_shape : shape3 (K desc) (NH1 desc) (NH2 desc) h.

Lemma visible_bias_dot :
  sum1 (zip1 Rmult (c r) (sum_r v)) = sum3 (zip3 Rmult (get_c_rep desc r) v).
Proof. apply bias_dot. now rewrite c_length. Qed.

Lemma hidden_bias_dot :
  sum1 (zip1 Rmult (b r) (sum_r h)) = sum3 (zip3 Rmult (get_b_rep desc r) h).
Proof. apply bias_dot. now rewrite b_length. Qed.

End Energy.

(** C4: for BINARY visible and BINARY hidden units the energy is
    [- c.v - b.h - h.(W*v)], where [W*v] is the valid convolution of [v]
    with the flipped kernels and the bias of every channel is broadcast
    over its map. *)
Theorem energy_binary_binary
  (desc : descriptor) (T : Type) (r : layer T) (v h : tensor3) :
  visible_unit desc = BINARY ->
  hidden_unit desc = BINARY ->
  length (c r) = NC desc ->
  length (b r) = K desc ->
  shape3 (NC desc) (NV1 desc) (NV2 desc) v ->
  shape3 (K desc) (NH1 desc) (NH2 desc) h ->
  energy_impl desc r v h
  = - sum3 (zip3 Rmult (rep (NV1 desc) (NV2 desc) (c r)) v)
    - sum3 (zip3 Rmult (rep (NH1 desc) (NH2 desc) (b r)) h)
    - sum3 (zip3 Rmult h (first (conv_4d_valid_flipped (reshape_v_a v) (w r)))).
Proof.
  intros Hv Hh Hc Hb Sv Sh. unfold energy_impl. rewrite Hv, Hh. cbn [unit_type_eqb andb].
  rewrite (visible_bias_dot desc r v Hc Sv), (hidden_bias_dot desc r h Hb Sh).
  reflexivity.
Qed.

Lemma energy_binary_binary_witness :
  energy_impl (example.conv_desc BINARY BINARY) example.one_layer
    example.image example.feature
  = - sum3 (zip3 Rmult (rep 2 2 [1]) example.image)
    - sum3 (zip3 Rmult (rep 1 1 [1]) example.feature)
    - sum3 (zip3 Rmult example.feature
              (first (conv_4d_valid_flipped (reshape_v_a example.image)
                        example.kernel))).
Proof.
  apply (energy_binary_binary (example.conv_desc BINARY BINARY) tensor3
           example.one_layer example.image example.feature);
    try reflexivity; repeat constructor.
Defined.

(** C2, as stated, fails: on the small layer with GAUSSIAN visible units
    the energy is not [sum (v-c)^2/2 - b.h - h.(W*v)]. *)
Lemma energy_gaussian_binary_counterexample :
  energy_impl (example.conv_desc GAUSSIAN BINARY) example.one_layer
    example.image example.feature
  <> sum3 (map3 (fun x => pow2 x / 2)
             (zip3 Rminus example.image (rep 2 2 [1])))
     - sum3 (zip3 Rmult (rep 1 1 [1]) example.feature)
     - sum3 (zip3 Rmult example.feature
               (first (conv_4d_valid_flipped (reshape_v_a example.image)
                         example.kernel))).
Proof.
  cbn -[Rplus Rmult Rminus Ropp Rdiv]. unfold pow2. lra.
Qed.

(** C2, amended: for GAUSSIAN visible and BINARY hidden units the energy
    is [- sum (v-c)^2/2 - b.h - h.(W*v)]: the quadratic term enters with
    the same sign as the term [- c.v] that it replaces. *)
Theorem energy_gaussian_binary
  (desc : descriptor) (T : Type) (r : layer T) (v h : tensor3) :
  visible_unit desc = GAUSSIAN ->
  hidden_unit desc = BINARY ->
  length (b r) = K desc ->
  shape3 (K desc) (NH1 desc) (NH2 desc) h ->
  energy_impl desc r v h
  = - sum3 (map3 (fun x => pow2 x / 2)
              (zip3 Rminus v (rep (NV1 desc) (NV2 desc) (c r))))
    - sum3 (zip3 Rmult (rep (NH1 desc) (NH2 desc) (b r)) h)
    - sum3 (zip3 Rmult h (first (conv_4d_valid_flipped (reshape_v_a v) (w r)))).
Proof.
  intros Hv Hh Hb Sh. unfold energy_impl. rewrite Hv, Hh. cbn [unit_type_eqb andb].
  rewrite (hidden_bias_dot desc r h Hb Sh). reflexivity.
Qed.

Lemma energy_gaussian_binary_witness :
  energy_impl (example.conv_desc GAUSSIAN BINARY) example.one_layer
    example.image example.feature
  = - sum3 (map3 (fun x => pow2 x / 2)
              (zip3 Rminus example.image (rep 2 2 [1])))
    - sum3 (zip3 Rmult (rep 1 1 [1]) example.feature)
    - sum3 (zip3 Rmult example.feature
              (first (conv_4d_valid_flipped (reshape_v_a example.image)
                        example.kernel))).
Proof.
  apply (energy_gaussian_binary (example.conv_desc GAUSSIAN BINARY) tensor3
           example.one_layer example.image example.feature);
    try reflexivity; repeat constructor.
Defined.

(** C3, as stated, fails for GAUSSIAN visible units: on the small layer
    the free energy is not [- c.v - sum log(1 + exp(b + W*v))]. *)
Lemma free_energy_binary_hidden_counterexample :
  free_energy_impl (example.conv_desc GAUSSIAN BINARY) example.one_layer
    example.image
  <> - sum3 (zip3 Rmult (rep 2 2 [1]) example.image)
     - sum3 (map3 log1pexp
               (hidden_pre (example.conv_desc GAUSSIAN BINARY)
                  example.one_layer example.image)).
Proof.
  unfold free_energy_impl. cbn [example.conv_desc visible_unit hidden_unit unit_type_eqb andb].
  change (zip3 Rplus
            (get_b_rep (example.conv_desc GAUSSIAN BINARY) example.one_layer)
            (first (energy_tmp example.one_layer example.image)))
    with (hidden_pre (example.conv_desc GAUSSIAN BINARY) example.one_layer
            example.image).
  generalize (sum3 (map3 log1pexp
    (hidden_pre (example.conv_desc GAUSSIAN BINARY) example.one_layer
       example.image))).
  intros l. cbn -[Rplus Rmult Rminus Ropp Rdiv]. unfold pow2. lra.
Qed.

(** C3, amended: with BINARY hidden units the free energy is
    [- c.v - sum log(1 + exp(b + W*v))] when the visible units are BINARY,
    and [- sum (v-c)^2/2 - sum log(1 + exp(b + W*v))] when they are
    GAUSSIAN. *)
Theorem free_energy_binary_hidden
  (desc : descriptor) (T : Type) (r : layer T) (v : tensor3) :
  hidden_unit desc = BINARY ->
  length (c r) = NC desc ->
  shape3 (NC desc) (NV1 desc) (NV2 desc) v ->
  let x := zip3 Rplus (rep (NH1 desc) (NH2 desc) (b r))
             (first (conv_4d_valid_flipped (reshape_v_a v) (w r))) in
  (visible_unit desc = BINARY ->
   free_energy_impl desc r v
   = - sum3 (zip3 Rmult (rep (NV1 desc) (NV2 desc) (c r)) v)
     - sum3 (map3 log1pexp x))
  /\
  (visible_unit desc = GAUSSIAN ->
   free_energy_impl desc r v
   = - sum3 (map3 (fun y => pow2 y / 2)
               (zip3 Rminus v (rep (NV1 desc) (NV2 desc) (c r))))
     - sum3 (map3 log1pexp x)).
Proof.
  intros Hh Hc Sv x. split; intros Hv; unfold free_energy_impl;
    rewrite Hv, Hh; cbn [unit_type_eqb andb].
  - rewrite (visible_bias_dot desc r v Hc Sv). reflexivity.
  - reflexivity.
Qed.

Lemma free_energy_binary_hidden_witness :
  free_energy_impl (example.conv_desc BINARY BINARY) example.one_layer
    example.image
  = - sum3 (zip3 Rmult (rep 2 2 [1]) example.image)
    - sum3 (map3 log1pexp
              (hidden_pre (example.conv_desc BINARY BINARY) example.one_layer
                 example.image)).
Proof.
  refine (proj1 (free_energy_binary_hidden (example.conv_desc BINARY BINARY)
                   tensor3 example.one_layer example.image
                   eq_refl eq_refl _) eq_refl).
  repeat constructor.
Defined.

(** C5: for a valid combination of units other than BINARY/BINARY and
    GAUSSIAN/BINARY, that is with rectified hidden units, the energy and
    the free energy are 0 for every input; both are total functions. *)
Theorem energy_of_rectified_hidden_is_zero
  (desc : descriptor) (T : Type) (r : layer T) (v h : tensor3) :
  valid_units desc = true ->
  (visible_unit desc, hidden_unit desc) <> (BINARY, BINARY) ->
  (visible_unit desc, hidden_unit desc) <> (GAUSSIAN, BINARY) ->
  is_relu (hidden_unit desc) = true
  /\ energy_impl desc r v h = 0
  /\ free_energy_impl desc r v = 0.
Proof.
  unfold valid_units, energy_impl, free_energy_impl.
  destruct (visible_unit desc), (hidden_unit desc); cbn;
    intros Hv H1 H2; try discriminate Hv; try congruence; auto.
Qed.

Lemma energy_of_rectified_hidden_is_zero_witness :
  energy_impl (example.conv_desc GAUSSIAN RELU6) example.one_layer
    example.image example.feature = 0
  /\ free_energy_impl (example.conv_desc GAUSSIAN RELU6) example.one_layer
       example.image = 0.
Proof.
  apply (energy_of_rectified_hidden_is_zero
           (example.conv_desc GAUSSIAN RELU6) tensor3 example.one_layer
           example.image example.feature eq_refl);
    cbn; intros H; discriminate H.
Defined.

(** ** The two transforms *)

(** C6: the hidden probabilities are computed from the bias plus the
    valid convolution of the visible sample with the flipped kernels
    ([conv_4d_valid_flipped]) and the visible probabilities from the bias
    plus the full convolution of the hidden maps ([conv_4d_full]), both
    with the weights [w] of the layer; and the two convolutions are
    adjoint: pairing the hidden maps with the first is pairing the second
    with the visible sample. *)
Theorem transforms_are_adjoint_convolutions
  (desc : descriptor) (isfinite : R -> bool)
  (logistic_noise : sampler) (ranged_noise : R -> sampler) :
  valid_units desc = true ->
  (forall h_a h_s v_a v_s r e r' e',
     activate_hidden desc isfinite logistic_noise ranged_noise
       true false h_a h_s v_a v_s (r, e) = Done (r', e') ->
     load r' h_a
     = map3 (hidden_law desc)
         (zip3 Rplus (rep (NH1 desc) (NH2 desc) (b r))
            (first (conv_4d_valid_flipped (reshape_v_a (load r v_a)) (w r)))))
  /\
  (forall h_a h_s v_a v_s r e r' e',
     activate_visible desc isfinite true false h_a h_s v_a v_s (r, e)
     = Done (r', e') ->
     load r' v_a
     = visible_activation desc
         (zip3 Rplus (rep (NV1 desc) (NV2 desc) (c r))
            (first (conv_4d_full (reshape_h_a (load r h_s)) (w r)))))
  /\
  (forall (T : Type) (r : layer T) (v h : tensor3),
     proper desc ->
     well_formed desc r ->
     shape3 (NC desc) (NV1 desc) (NV2 desc) v ->
     shape3 (K desc) (NH1 desc) (NH2 desc) h ->
     sum3 (zip3 Rmult h (first (conv_4d_valid_flipped (reshape_v_a v) (w r))))
     = sum3 (zip3 Rmult (first (conv_4d_full (reshape_h_a h) (w r))) v)).
Proof.
  intros Hv. split; [|split].
  - intros h_a h_s v_a v_s r e r' e' H.
    destruct (activate_hidden_probabilities desc isfinite logistic_noise
                ranged_noise h_a h_s v_a v_s r r' e e' Hv H) as [[_ Hl] _].
    rewrite Hl. apply load_store_same.
  - intros h_a h_s v_a v_s r e r' e' H.
    destruct (activate_visible_probabilities desc isfinite
                h_a h_s v_a v_s r r' e e' Hv H) as [[_ Hl] _].
    rewrite Hl. apply load_store_same.
  - intros T r v h (Hc & Hk & [H1 H1'] & [H2 H2']) (Sw & _ & _) Sv Sh.
    unfold NW1, NW2 in Sw.
    apply (conv_adjoint (K desc) (NC desc)
             (NV1 desc - NH1 desc + 1) (NV2 desc - NH2 desc + 1)
             (NH1 desc) (NH2 desc)); try assumption; try lia.
    replace (NH1 desc + (NV1 desc - NH1 desc + 1) - 1)%nat with (NV1 desc)
      by lia.
    replace (NH2 desc + (NV2 desc - NH2 desc + 1) - 1)%nat with (NV2 desc)
      by lia.
    exact Sv.
Qed.

Lemma transforms_are_adjoint_convolutions_witness :
  sum3 (zip3 Rmult example.feature
          (first (conv_4d_valid_flipped (reshape_v_a example.image)
                    example.kernel)))
  = sum3 (zip3 Rmult
            (first (conv_4d_full (reshape_h_a example.feature) example.kernel))
            example.image).
Proof.
  refine (proj2 (proj2 (transforms_are_adjoint_convolutions
                          (example.conv_desc BINARY BINARY) example.any_finite
                          example.no_noise (fun _ => example.no_noise)
                          eq_refl))
            tensor3 example.one_layer example.image example.feature _ _ _ _).
  - unfold proper. cbn. lia.
  - unfold well_formed. repeat split; repeat constructor.
  - repeat constructor.
  - repeat constructor.
Defined.

(** ** Initialisation of the dynamic RBM *)

(** C10: constructing a dynamic RBM with [nv] visible and [nh] hidden
    units sets both bias vectors to zeros, every weight to 0.1 times the
    draw of the standard normal generator made for it, so that the
    empirical mean and standard deviation of the weights are 0.1 times
    those of the draws, and leaves the three backups absent;
    [init_layer] sets the same weights and biases and does not touch the
    backups. *)
Theorem dyn_rbm_initial_parameters
  (nv nh : nat) (g : dyn_rbm.normal_generator) :
  let r := dyn_rbm.construct nv nh g in
  let draws := tab (nv * nh) g in
  dyn_rbm.b r = repeat 0 nh
  /\ dyn_rbm.c r = repeat 0 nv
  /\ shape2 nv nh (dyn_rbm.w r)
  /\ (forall i j, (i < nv)%nat -> (j < nh)%nat ->
        at2 (dyn_rbm.w r) i j = 0.1 * g (i * nh + j)%nat)
  /\ dyn_rbm.mean (dyn_rbm.flatten (dyn_rbm.w r)) = 0.1 * dyn_rbm.mean draws
  /\ dyn_rbm.std_deviation (dyn_rbm.flatten (dyn_rbm.w r))
     = 0.1 * dyn_rbm.std_deviation draws
  /\ dyn_rbm.bak_w r = None
  /\ dyn_rbm.bak_b r = None
  /\ dyn_rbm.bak_c r = None
  /\ (forall r0,
        let r1 := dyn_rbm.init_layer nv nh g r0 in
        dyn_rbm.w r1 = dyn_rbm.w r
        /\ dyn_rbm.b r1 = repeat 0 nh
        /\ dyn_rbm.c r1 = repeat 0 nv
        /\ dyn_rbm.bak_w r1 = dyn_rbm.bak_w r0
        /\ dyn_rbm.bak_b r1 = dyn_rbm.bak_b r0
        /\ dyn_rbm.bak_c r1 = dyn_rbm.bak_c r0).
Proof.
  intros r draws.
  assert (Hflat : dyn_rbm.flatten (dyn_rbm.w r)
                  = map (fun x => x * 0.1) draws).
  { unfold r, draws. cbn [dyn_rbm.construct dyn_rbm.w].
    rewrite assign_generated_flatten, tab_map. reflexivity. }
  repeat split.
  - apply assign_generated_shape.
  - apply assign_generated_shape.
  - intros i j Hi Hj. unfold r. cbn [dyn_rbm.construct dyn_rbm.w].
    rewrite assign_generated_at by assumption. apply Rmult_comm.
  - rewrite Hflat, mean_scale. apply Rmult_comm.
  - rewrite Hflat, std_deviation_scale by lra. apply Rmult_comm.
Qed.

Lemma dyn_rbm_initial_parameters_witness :
  at2 (dyn_rbm.w (dyn_rbm.construct 2 3 (fun n => INR n))) 1 2
  = 0.1 * INR (1 * 3 + 2).
Proof.
  destruct (dyn_rbm_initial_parameters 2 3 (fun n => INR n))
    as (_ & _ & _ & Hw & _).
  apply (Hw 1%nat 2%nat); lia.
Defined.

(** * Further properties of the activations *)

(** ** Statements that leave the random engine alone *)

Lemma same_engine_refl {T : Type} (st : state T) : same_engine st st.
Proof. reflexivity. Qed.

Lemma same_engine_trans {T : Type} (x y z : state T) :
  same_engine x y -> same_engine y z -> same_engine x z.
Proof. unfold same_engine. congruence. Qed.

Lemma ensures_engine_assign {T : Type} (dst : buffer) (rhs : layer T -> T) :
  ensures same_engine (assign dst rhs).
Proof. intros st st' H. unfold assign in H. injection H as <-. reflexivity. Qed.

Ltac engine_steps :=
  repeat first
    [ apply ensures_andThen; [apply same_engine_trans | | ]
    | apply ensures_static_assert; apply same_engine_refl
    | apply ensures_nan_check; apply same_engine_refl
    | apply ensures_skip; apply same_engine_refl
    | apply ensures_when; [apply same_engine_refl | ]
    | apply ensures_engine_assign ].

Ltac enter_body :=
  let st := fresh "st" in
  intros st; cbv zeta;
  match goal with
  | |- context [get_b_rep ?d (fst st)] =>
      generalize (get_b_rep d (fst st))
  | |- context [get_c_rep ?d (fst st)] =>
      generalize (get_c_rep d (fst st))
  | |- context [get_batch_b_rep ?d (fst st) ?t] =>
      generalize (get_batch_b_rep d (fst st) t)
  | |- context [get_batch_c_rep ?d (fst st) ?t] =>
      generalize (get_batch_c_rep d (fst st) t)
  end;
  let t := fresh "rep_t" in
  intros t; revert st.

(** X1: without a request for samples no activation consumes a draw: the
    engine after the activation is the engine before it. *)
Theorem no_draw_without_sampling
  (desc : descriptor) (isfinite : R -> bool)
  (logistic_noise : sampler) (ranged_noise : R -> sampler)
  (P : bool) (h_a h_s v_a v_s : buffer) :
  (forall st st',
     activate_hidden desc isfinite logistic_noise ranged_noise
       P false h_a h_s v_a v_s st = Done st' -> snd st' = snd st)
  /\
  (forall st st',
     activate_visible desc isfinite P false h_a h_s v_a v_s st = Done st' ->
     snd st' = snd st)
  /\
  (forall st st',
     batch_activate_hidden desc isfinite logistic_noise ranged_noise
       P false h_a h_s v_a v_s st = Done st' -> snd st' = snd st)
  /\
  (forall st st',
     batch_activate_visible desc isfinite P false h_a h_s v_a v_s st
     = Done st' -> snd st' = snd st).
Proof.
  split; [|split; [|split]].
  - unfold activate_hidden, H_SAMPLE_PROBS, H_PROBS, H_PROBS2.
    enter_body. as_ensures (@same_engine tensor3).
    destruct P; cbn [andb when]; engine_steps.
  - unfold activate_visible, V_SAMPLE_PROBS, V_PROBS.
    as_ensures (@same_engine tensor3).
    destruct P; cbn [andb when]; engine_steps;
      enter_body; as_ensures (@same_engine tensor3); engine_steps.
  - unfold batch_activate_hidden, H_SAMPLE_PROBS, H_PROBS, H_PROBS2.
    as_ensures (@same_engine tensor4).
    destruct P; cbn [andb when]; engine_steps;
      enter_body; as_ensures (@same_engine tensor4); engine_steps.
  - unfold batch_activate_visible, V_SAMPLE_PROBS, V_PROBS.
    as_ensures (@same_engine tensor4).
    destruct P; cbn [andb when]; engine_steps;
      enter_body; as_ensures (@same_engine tensor4); engine_steps.
Qed.

Lemma no_draw_without_sampling_witness :
  exists st',
    activate_visible (example.conv_desc BINARY BINARY) example.any_finite
      true false h1_a h1_s v2_a v2_s (example.one_layer, example.engine)
    = Done st'
    /\ snd st' = example.engine.
Proof.
  eexists. split; [reflexivity|].
  apply (proj1 (proj2 (no_draw_without_sampling
                         (example.conv_desc BINARY BINARY) example.any_finite
                         example.no_noise (fun _ => example.no_noise)
                         true h1_a h1_s v2_a v2_s))
           (example.one_layer, example.engine)).
  reflexivity.
Defined.

(** ** Rejection at compile time *)













(** ** Ranges of the visible probabilities and of the samples *)

Lemma establishes_assign_sampled {T : Type} (x : buffer) (Q : T -> Prop)
  (rhs : layer T -> random_engine -> T * random_engine) :
  (forall r e, Q (fst (rhs r e))) ->
  establishes (holds_at x Q) (assign_sampled x rhs).
Proof.
  intros Hq st st' H. unfold assign_sampled in H.
  specialize (Hq (fst st) (snd st)).
  destruct (rhs (fst st) (snd st)) as [t e]. injection H as <-.
  unfold holds_at; cbn [fst]. rewrite load_store_same. exact Hq.
Qed.

Lemma preserves_assign {T : Type} (x dst : buffer) (Q : T -> Prop)
  (rhs : layer T -> T) :
  (forall r, Q (rhs r)) \/ dst <> x ->
  preserves (holds_at x Q) (assign dst rhs).
Proof.
  intros Hq st st' H Hi. unfold assign in H. injection H as <-.
  unfold holds_at in *; cbn [fst].
  destruct (buffer_eqb dst x) eqn:E.
  - apply buffer_eqb_eq in E. subst dst. rewrite load_store_same.
    destruct Hq as [Hq|Hq]; [apply Hq | congruence].
  - apply buffer_eqb_neq in E. rewrite load_store_other; auto.
Qed.

Lemma bernoulli_zero_or_one (x : R) (e : random_engine) :
  fst (bernoulli x e) = 0 \/ fst (bernoulli x e) = 1.
Proof. apply bernoulli_binary. Qed.

Ltac element_in_range :=
  first [ apply sigmoid_unit_interval
        | apply sigmoid_gaussian_unit_interval
        | apply bernoulli_unit_interval
        | apply bernoulli_zero_or_one
        | apply relu_nonneg
        | apply relu_capped_range; lra
        | exact Logic.I ].

Ltac elements_in_range :=
  intros;
  try match goal with
  | |- context [let (_, _) := ?x in _] => destruct x; cbn [fst]
  end;
  first [ apply all3_map3 | apply all4_map4
        | apply all3_sample3 | apply all4_sample4 ];
  intros; element_in_range.

Ltac stays_in_range :=
  repeat first
    [ apply preserves_andThen
    | apply preserves_skip
    | apply preserves_static_assert
    | apply preserves_nan_check
    | apply preserves_when
    | apply preserves_assign_sampled; left; solve [elements_in_range]
    | apply preserves_assign_sampled; right; assumption
    | apply preserves_assign; left; solve [elements_in_range]
    | apply preserves_assign; right; assumption ].

Ltac gets_in_range :=
  first
    [ apply establishes_static_assert_false
    | apply establishes_after; gets_in_range
    | apply establishes_then;
      [ first [ apply establishes_assign; solve [elements_in_range]
              | apply establishes_assign_sampled; solve [elements_in_range] ]
      | solve [stays_in_range] ] ].

Ltac as_establishes :=
  match goal with
  | |- forall st st', ?s st = Done st' -> ?I st' => change (establishes I s)
  end.

Ltac split_alias x y :=
  let E := fresh "E" in
  destruct (buffer_eqb x y) eqn:E;
  [ apply buffer_eqb_eq in E; subst y | apply buffer_eqb_neq in E ].

(** X3: with BINARY visible units, whenever a visible activation (of one
    sample or of a batch) completes, every element of its probability
    output lies in [0,1]. *)
Theorem visible_probabilities_in_unit_interval
  (desc : descriptor) (isfinite : R -> bool)
  (P S : bool) (h_a h_s v_a v_s : buffer) :
  visible_unit desc = BINARY ->
  (forall st st',
     activate_visible desc isfinite P S h_a h_s v_a v_s st = Done st' ->
     all3 (fun x => 0 <= x <= 1) (load (fst st') v_a))
  /\
  (forall st st',
     batch_activate_visible desc isfinite P S h_a h_s v_a v_s st = Done st' ->
     all4 (fun x => 0 <= x <= 1) (load (fst st') v_a)).
Proof.
  intros Hv. split.
  - change (establishes (holds_at v_a (all3 (fun x => 0 <= x <= 1)))
              (activate_visible desc isfinite P S h_a h_s v_a v_s)).
    unfold activate_visible, V_SAMPLE_PROBS, V_PROBS. rewrite Hv.
    destruct P, S; cbn [when andb orb unit_type_eqb];
      try gets_in_range;
      do 3 apply establishes_after;
      enter_body; as_establishes; gets_in_range.
  - change (establishes (holds_at v_a (all4 (fun x => 0 <= x <= 1)))
              (batch_activate_visible desc isfinite P S h_a h_s v_a v_s)).
    unfold batch_activate_visible, V_SAMPLE_PROBS, V_PROBS. rewrite Hv.
    destruct P, S; cbn [when andb orb unit_type_eqb];
      try gets_in_range;
      do 3 apply establishes_after;
      enter_body; as_establishes; gets_in_range.
Qed.

Lemma visible_probabilities_in_unit_interval_witness :
  exists st',
    activate_visible (example.conv_desc BINARY BINARY) example.any_finite
      true true h1_a h1_s v2_a v2_s (example.one_layer, example.engine)
    = Done st'
    /\ all3 (fun x => 0 <= x <= 1) (load (fst st') v2_a).
Proof.
  eexists. split; [reflexivity|].
  apply (proj1 (visible_probabilities_in_unit_interval
                  (example.conv_desc BINARY BINARY) example.any_finite
                  true true h1_a h1_s v2_a v2_s eq_refl)
           (example.one_layer, example.engine)).
  reflexivity.
Defined.

(** X4: when samples are requested, whenever an activation completes, every
    element of its sample output lies in the range of the unit kind,
    whatever the noise laws of the rectified units are: 0 or 1 for a
    BINARY unit (hidden or visible), at least 0 for RELU, [0,6] for RELU6
    and [0,1] for RELU1. *)
Theorem samples_in_range
  (desc : descriptor) (isfinite : R -> bool)
  (logistic_noise : sampler) (ranged_noise : R -> sampler)
  (P : bool) (h_a h_s v_a v_s : buffer) :
  (forall st st',
     activate_hidden desc isfinite logistic_noise ranged_noise
       P true h_a h_s v_a v_s st = Done st' ->
     all3 (hidden_sample_range desc) (load (fst st') h_s))
  /\
  (forall st st',
     batch_activate_hidden desc isfinite logistic_noise ranged_noise
       P true h_a h_s v_a v_s st = Done st' ->
     all4 (hidden_sample_range desc) (load (fst st') h_s))
  /\
  (visible_unit desc = BINARY ->
   forall st st',
     activate_visible desc isfinite P true h_a h_s v_a v_s st = Done st' ->
     all3 (fun x => x = 0 \/ x = 1) (load (fst st') v_s))
  /\
  (visible_unit desc = BINARY ->
   forall st st',
     batch_activate_visible desc isfinite P true h_a h_s v_a v_s st
     = Done st' ->
     all4 (fun x => x = 0 \/ x = 1) (load (fst st') v_s)).
Proof.
  split; [|split; [|split]].
  - change (establishes (holds_at h_s (all3 (hidden_sample_range desc)))
              (activate_hidden desc isfinite logistic_noise ranged_noise
                 P true h_a h_s v_a v_s)).
    unfold activate_hidden, H_SAMPLE_PROBS, H_PROBS, H_PROBS2.
    enter_body. as_establishes. unfold hidden_sample_range.
    split_alias h_s h_a;
      destruct (hidden_unit desc), P;
      cbn [when andb orb unit_type_eqb is_relu];
      gets_in_range.
  - change (establishes (holds_at h_s (all4 (hidden_sample_range desc)))
              (batch_activate_hidden desc isfinite logistic_noise ranged_noise
                 P true h_a h_s v_a v_s)).
    unfold batch_activate_hidden, H_SAMPLE_PROBS, H_PROBS, H_PROBS2.
    unfold hidden_sample_range.
    split_alias h_s h_a;
      destruct (hidden_unit desc), P;
      cbn [when andb orb unit_type_eqb is_relu];
      try gets_in_range;
      do 3 apply establishes_after;
      enter_body; as_establishes; gets_in_range.
  - intros Hv.
    change (establishes (holds_at v_s (all3 (fun x => x = 0 \/ x = 1)))
              (activate_visible desc isfinite P true h_a h_s v_a v_s)).
    unfold activate_visible, V_SAMPLE_PROBS, V_PROBS. rewrite Hv.
    destruct P; cbn [when andb orb unit_type_eqb];
      try gets_in_range;
      do 3 apply establishes_after;
      enter_body; as_establishes; gets_in_range.
  - intros Hv.
    change (establishes (holds_at v_s (all4 (fun x => x = 0 \/ x = 1)))
              (batch_activate_visible desc isfinite P true h_a h_s v_a v_s)).
    unfold batch_activate_visible, V_SAMPLE_PROBS, V_PROBS. rewrite Hv.
    destruct P; cbn [when andb orb unit_type_eqb];
      try gets_in_range;
      do 3 apply establishes_after;
      enter_body; as_establishes; gets_in_range.
Qed.

Lemma samples_in_range_witness :
  exists st',
    activate_hidden (example.conv_desc BINARY RELU1) example.any_finite
      example.no_noise (fun _ => example.no_noise)
      true true h1_a h1_s v1 v1 (example.one_layer, example.engine)
    = Done st'
    /\ all3 (fun x => 0 <= x <= 1) (load (fst st') h1_s).
Proof.
  eexists. split; [reflexivity|].
  apply (proj1 (samples_in_range
                  (example.conv_desc BINARY RELU1) example.any_finite
                  example.no_noise (fun _ => example.no_noise)
                  true h1_a h1_s v1 v1)
           (example.one_layer, example.engine)).
  reflexivity.
Defined.

(** ** Probabilities and samples of one hidden activation *)

Lemma get_b_rep_store {T : Type} (d : descriptor) (x : buffer) (t : T)
  (r : layer T) :
  get_b_rep d (store x t r) = get_b_rep d r.
Proof. reflexivity. Qed.

Lemma get_c_rep_store {T : Type} (d : descriptor) (x : buffer) (t : T)
  (r : layer T) :
  get_c_rep d (store x t r) = get_c_rep d r.
Proof. reflexivity. Qed.

Ltac run_statements Hab Hba :=
  unfold andThen, static_assert, skip, assign, assign_sampled, nan_check_deep;
  cbn [fst snd];
  repeat first
    [ rewrite load_store_same
    | rewrite get_b_rep_store
    | rewrite get_c_rep_store
    | rewrite (load_store_other _ _ _ _ Hab)
    | rewrite (load_store_other _ _ _ _ Hba)
    | match goal with
      | |- context [if ?b then Done _ else Fatal] => destruct b; [|discriminate]
      end
    | progress cbn [fst snd]
    | match goal with
      | |- context [sample3 ?f ?t ?e] => destruct (sample3 f t e) eqn:?
      | |- context [sample4 ?f ?t ?e] => destruct (sample4 f t e) eqn:?
      end ];
  let H := fresh in intros H; injection H as <- <-;
  repeat first
    [ rewrite load_store_same
    | rewrite (load_store_other _ _ _ _ Hab)
    | rewrite (load_store_other _ _ _ _ Hba)
    | match goal with
      | E : sample3 _ _ _ = _ |- _ => rewrite E
      | E : sample4 _ _ _ = _ |- _ => rewrite E
      end ].

Lemma activate_hidden_sampled
  (desc : descriptor) (isfinite : R -> bool)
  (logistic_noise : sampler) (ranged_noise : R -> sampler)
  (h_a h_s v_a v_s : buffer)
  (r r' : layer tensor3) (e e' : random_engine) :
  valid_units desc = true ->
  h_a <> h_s ->
  activate_hidden desc isfinite logistic_noise ranged_noise
    true true h_a h_s v_a v_s (r, e) = Done (r', e') ->
  let pre := hidden_pre desc r (load r v_a) in
  load r' h_a = map3 (hidden_law desc) pre
  /\ (load r' h_s, e') = hidden_sampling desc logistic_noise ranged_noise pre e.
Proof.
  intros Hv Hab.
  assert (Hba : h_s <> h_a) by congruence.
  unfold activate_hidden, H_SAMPLE_PROBS, H_PROBS, H_PROBS2.
  unfold hidden_sampling, hidden_law, hidden_pre. unfold valid_units in Hv.
  destruct (hidden_unit desc), (visible_unit desc); try discriminate Hv;
    cbn [when andb orb unit_type_eqb is_relu];
    run_statements Hab Hba;
    (split; [reflexivity | reflexivity]).
Qed.

(** X5: with distinct output buffers, requesting samples does not change the
    probabilities that the hidden activation leaves in [h_a]; the samples
    left in [h_s] are bernoulli draws of the probabilities for BINARY
    units, and for rectified units the rectified noisy pre-activation
    (bias plus convolution), not a function of the probabilities. *)
Theorem hidden_probabilities_and_samples
  (desc : descriptor) (isfinite : R -> bool)
  (logistic_noise : sampler) (ranged_noise : R -> sampler)
  (h_a h_s v_a v_s : buffer)
  (r r' : layer tensor3) (e e' : random_engine) :
  valid_units desc = true ->
  h_a <> h_s ->
  activate_hidden desc isfinite logistic_noise ranged_noise
    true true h_a h_s v_a v_s (r, e) = Done (r', e') ->
  let pre := hidden_pre desc r (load r v_a) in
  load r' h_a = map3 (hidden_law desc) pre
  /\ (load r' h_s, e') = hidden_sampling desc logistic_noise ranged_noise pre e.
Proof. apply activate_hidden_sampled. Qed.

Lemma hidden_probabilities_and_samples_witness :
  exists r' e',
    activate_hidden (example.conv_desc BINARY RELU) example.any_finite
      example.no_noise (fun _ => example.no_noise)
      true true h1_a h1_s v1 v1 (example.one_layer, example.engine)
    = Done (r', e')
    /\ load r' h1_a
       = map3 relu (hidden_pre (example.conv_desc BINARY RELU)
                      example.one_layer example.image)
    /\ load r' h1_s = load r' h1_a.
Proof.
  eexists. eexists. split; [reflexivity|].
  destruct (hidden_probabilities_and_samples
              (example.conv_desc BINARY RELU) example.any_finite
              example.no_noise (fun _ => example.no_noise)
              h1_a h1_s v1 v1 example.one_layer _ example.engine _
              eq_refl ltac:(discriminate) eq_refl) as [Ha Hs].
  split; [exact Ha|]. rewrite Ha.
  exact (f_equal fst Hs).
Defined.

(** ** Shapes *)

Lemma zipw_length {A B C : Type} (f : A -> B -> C) (n : nat)
  (l : list A) (l' : list B) :
  length l = n -> length l' = n -> length (zipw f l l') = n.
Proof.
  revert l l'. induction n as [|n IH]; intros [|x l] [|y l'] Hl Hl';
    try discriminate Hl; try discriminate Hl'; [reflexivity|].
  simpl. f_equal. apply IH; [now injection Hl | now injection Hl'].
Qed.

Lemma Forall_zipw {A B C : Type} (f : A -> B -> C)
  (QA : A -> Prop) (QB : B -> Prop) (QC : C -> Prop)
  (l : list A) (l' : list B) :
  (forall x y, QA x -> QB y -> QC (f x y)) ->
  Forall QA l -> Forall QB l' -> Forall QC (zipw f l l').
Proof.
  intros Hf Hl. revert l'. induction Hl as [|x l Hx Hl IH]; intros l' Hl'.
  - constructor.
  - destruct Hl' as [|y l' Hy Hl']; simpl; constructor; auto.
Qed.

Lemma mapS_length {A B : Type} (f : A -> random_engine -> B * random_engine)
  (l : list A) (e : random_engine) :
  length (fst (mapS f l e)) = length l.
Proof.
  revert e. induction l as [|x l IH]; intros e; simpl; [reflexivity|].
  destruct (f x e) as [y e1]. specialize (IH e1).
  destruct (mapS f l e1) as [ys e2]. simpl in *. now rewrite IH.
Qed.

Lemma Forall_mapS_from {A B : Type} (QA : A -> Prop) (QB : B -> Prop)
  (f : A -> random_engine -> B * random_engine) (l : list A) :
  (forall x e, QA x -> QB (fst (f x e))) ->
  Forall QA l -> forall e, Forall QB (fst (mapS f l e)).
Proof.
  intros Hf Hl. induction Hl as [|x l Hx Hl IH]; intros e; simpl.
  - constructor.
  - specialize (Hf x e Hx). destruct (f x e) as [y e1]. specialize (IH e1).
    destruct (mapS f l e1) as [ys e2]. simpl in *. constructor; auto.
Qed.

Lemma shape3_zip3 (f : R -> R -> R) (n0 n1 n2 : nat) (s t : tensor3) :
  shape3 n0 n1 n2 s -> shape3 n0 n1 n2 t -> shape3 n0 n1 n2 (zip3 f s t).
Proof.
  intros [Ls Fs] [Lt Ft]. split; [apply zipw_length; assumption|].
  eapply Forall_zipw; [|exact Fs|exact Ft].
  intros m m' [Lm Fm] [Lm' Fm']. split; [apply zipw_length; assumption|].
  eapply Forall_zipw; [|exact Fm|exact Fm'].
  intros u u' Lu Lu'. apply zipw_length; assumption.
Qed.

Lemma shape3_map3 (f : R -> R) (n0 n1 n2 : nat) (t : tensor3) :
  shape3 n0 n1 n2 t -> shape3 n0 n1 n2 (map3 f t).
Proof.
  intros [Lt Ft]. split; [unfold map3; now rewrite length_map|].
  unfold map3. apply Forall_map. eapply Forall_impl; [|exact Ft].
  intros m [Lm Fm]. split; [unfold map2; now rewrite length_map|].
  unfold map2. apply Forall_map. eapply Forall_impl; [|exact Fm].
  intros u Lu. unfold shape1. now rewrite length_map.
Qed.

Lemma shape3_sample3 (f : sampler) (n0 n1 n2 : nat) (t : tensor3)
  (e : random_engine) :
  shape3 n0 n1 n2 t -> shape3 n0 n1 n2 (fst (sample3 f t e)).
Proof.
  intros [Lt Ft]. unfold sample3.
  split; [rewrite <- Lt; apply mapS_length|].
  eapply Forall_mapS_from; [|exact Ft].
  intros m e1 [Lm Fm]. split; [rewrite <- Lm; apply mapS_length|].
  eapply Forall_mapS_from; [|exact Fm].
  intros u e2 Lu. unfold shape1 in *. rewrite <- Lu. apply mapS_length.
Qed.

Lemma shape3_rep (d1 d2 : nat) (bias : vec) :
  shape3 (length bias) d1 d2 (rep d1 d2 bias).
Proof.
  unfold rep. split; [now rewrite length_map|].
  apply Forall_map_all. intros x. split; [apply repeat_length|].
  apply Forall_forall. intros u Hu. apply repeat_spec in Hu. subst u.
  apply repeat_length.
Qed.

Lemma shape3_tab (n0 n1 n2 : nat) (F : nat -> nat -> nat -> R) :
  shape3 n0 n1 n2
    (tab n0 (fun k => tab n1 (fun i => tab n2 (fun j => F k i j)))).
Proof.
  split; [apply tab_length|].
  unfold tab at 1. apply Forall_map_all. intros k.
  split; [apply tab_length|].
  unfold tab at 1. apply Forall_map_all. intros i. apply tab_length.
Qed.

Section Shapes.

Variable desc : descriptor.
Context {T : Type}.
Variable r : layer T.

Hypothesis desc_proper : proper desc.
Hypothesis r_well_formed : well_formed desc r.

Lemma hidden_pre_shape (v : tensor3) :
  shape3 (NC desc) (NV1 desc) (NV2 desc) v ->
  shape3 (K desc) (NH1 desc) (NH2 desc) (hidden_pre desc r v).
Proof.
  intros Sv. destruct desc_proper as (Hc & Hk & [H1 H1'] & [H2 H2']).
  destruct r_well_formed as (Sw & Lb & Lc). unfold NW1, NW2 in Sw.
  unfold hidden_pre, get_b_rep. apply shape3_zip3.
  - rewrite <- Lb. apply shape3_rep.
  - rewrite first_conv_valid.
    destruct (shape4_dims _ _ _ _ _ Sw) as (-> & -> & -> & ->); try lia.
    destruct (shape3_dims _ _ _ _ Sv) as (_ & -> & ->); try lia.
    replace (NV1 desc + 1 - (NV1 desc - NH1 desc + 1))%nat with (NH1 desc)
      by lia.
    replace (NV2 desc + 1 - (NV2 desc - NH2 desc + 1))%nat with (NH2 desc)
      by lia.
    apply shape3_tab.
Qed.

Lemma visible_pre_shape (h : tensor3) :
  shape3 (K desc) (NH1 desc) (NH2 desc) h ->
  shape3 (NC desc) (NV1 desc) (NV2 desc) (visible_pre desc r h).
Proof.
  intros Sh. destruct desc_proper as (Hc & Hk & [H1 H1'] & [H2 H2']).
  destruct r_well_formed as (Sw & Lb & Lc). unfold NW1, NW2 in Sw.
  unfold visible_pre, get_c_rep. apply shape3_zip3.
  - rewrite <- Lc. apply shape3_rep.
  - rewrite first_conv_full.
    destruct (shape4_dims _ _ _ _ _ Sw) as (-> & -> & -> & ->); try lia.
    destruct (shape3_dims _ _ _ _ Sh) as (_ & -> & ->); try lia.
    replace (NH1 desc + (NV1 desc - NH1 desc + 1) - 1)%nat with (NV1 desc)
      by lia.
    replace (NH2 desc + (NV2 desc - NH2 desc + 1) - 1)%nat with (NV2 desc)
      by lia.
    apply shape3_tab.
Qed.

End Shapes.

(** ** Probabilities and samples of one visible activation *)

Lemma activate_visible_sampled
  (desc : descriptor) (isfinite : R -> bool)
  (h_a h_s v_a v_s : buffer)
  (r r' : layer tensor3) (e e' : random_engine) :
  valid_units desc = true ->
  v_a <> v_s ->
  activate_visible desc isfinite true true h_a h_s v_a v_s (r, e)
  = Done (r', e') ->
  load r' v_a = visible_activation desc (visible_pre desc r (load r h_s))
  /\ (load r' v_s, e') = visible_sampling desc (load r' v_a) e.
Proof.
  intros Hv Hab H.
  assert (Hba : v_s <> v_a) by congruence.
  assert (Hrun :
    load r' v_a = visible_activation desc (visible_pre desc r (load r h_s))
    /\ (load r' v_s, e')
       = visible_sampling desc
           (visible_activation desc (visible_pre desc r (load r h_s))) e).
  { revert H.
    unfold activate_visible, V_SAMPLE_PROBS, V_PROBS.
    unfold visible_sampling, visible_activation, visible_pre.
    unfold valid_units in Hv.
    destruct (visible_unit desc); try discriminate Hv;
      cbn [when andb orb unit_type_eqb is_relu];
      run_statements Hab Hba;
      (split; [reflexivity | reflexivity]). }
  destruct Hrun as [Ha Hs]. split; [exact Ha|]. rewrite Ha. exact Hs.
Qed.

(** X6: with distinct output buffers, requesting samples does not change the
    probabilities that the visible activation leaves in [v_a]: the
    sigmoid of the bias plus the full convolution of the hidden sample for
    BINARY units, and that pre-activation itself for GAUSSIAN units; the
    samples left in [v_s] are bernoulli draws of the probabilities for
    BINARY units and the probabilities plus a standard normal draw for
    GAUSSIAN units. *)
Theorem visible_probabilities_and_samples
  (desc : descriptor) (isfinite : R -> bool)
  (h_a h_s v_a v_s : buffer)
  (r r' : layer tensor3) (e e' : random_engine) :
  valid_units desc = true ->
  v_a <> v_s ->
  activate_visible desc isfinite true true h_a h_s v_a v_s (r, e)
  = Done (r', e') ->
  load r' v_a = visible_activation desc (visible_pre desc r (load r h_s))
  /\ (load r' v_s, e') = visible_sampling desc (load r' v_a) e.
Proof. apply activate_visible_sampled. Qed.

Lemma visible_probabilities_and_samples_witness :
  exists r' e',
    activate_visible (example.conv_desc GAUSSIAN BINARY) example.any_finite
      true true h1_a h1_s v2_a v2_s (example.one_layer, example.engine)
    = Done (r', e')
    /\ load r' v2_a
       = visible_pre (example.conv_desc GAUSSIAN BINARY) example.one_layer
           example.feature
    /\ load r' v2_s = fst (sample3 normal_noise (load r' v2_a) example.engine).
Proof.
  eexists. eexists. split; [reflexivity|].
  destruct (visible_probabilities_and_samples
              (example.conv_desc GAUSSIAN BINARY) example.any_finite
              h1_a h1_s v2_a v2_s example.one_layer _ example.engine _
              eq_refl ltac:(discriminate) eq_refl) as [Ha Hs].
  split; [exact Ha|]. exact (f_equal fst Hs).
Defined.

(** ** Draws consumed by sampling *)

Lemma advanced_zero (e : random_engine) : advanced 0 e e.
Proof. unfold advanced. rewrite Nat.add_0_r. auto. Qed.

Lemma advanced_add (n m : nat) (e e1 e2 : random_engine) :
  advanced n e e1 -> advanced m e1 e2 -> advanced (n + m) e e2.
Proof.
  intros (C1 & U1 & N1) (C2 & U2 & N2). unfold advanced.
  rewrite C2, C1, U2, U1, N2, N1. repeat split. lia.
Qed.

Lemma mapS_advanced {A B : Type} (QA : A -> Prop) (k : nat)
  (f : A -> random_engine -> B * random_engine) (l : list A) :
  (forall x e, QA x -> advanced k e (snd (f x e))) ->
  Forall QA l ->
  forall e, advanced (length l * k) e (snd (mapS f l e)).
Proof.
  intros Hf Hl. induction Hl as [|x l Hx Hl IH]; intros e; simpl.
  - apply advanced_zero.
  - specialize (Hf x e Hx). destruct (f x e) as [y e1]. specialize (IH e1).
    destruct (mapS f l e1) as [ys e2]. simpl in *.
    eapply advanced_add; eassumption.
Qed.

Lemma sample3_advanced (f : sampler) (n0 n1 n2 : nat) (t : tensor3)
  (e : random_engine) :
  (forall x e1, advanced 1 e1 (snd (f x e1))) ->
  shape3 n0 n1 n2 t ->
  advanced (n0 * (n1 * n2)) e (snd (sample3 f t e)).
Proof.
  intros Hf [Lt Ft]. unfold sample3. rewrite <- Lt.
  apply (mapS_advanced (shape2 n1 n2)); [|exact Ft].
  intros m e1 [Lm Fm]. rewrite <- Lm.
  apply (mapS_advanced (shape1 n2)); [|exact Fm].
  intros u e2 Lu. unfold shape1 in Lu. rewrite <- Lu.
  replace (length u) with (length u * 1)%nat by lia.
  apply (mapS_advanced (fun _ => True)); [|apply Forall_forall; auto].
  intros x e3 _. apply Hf.
Qed.

Lemma bernoulli_advanced (x : R) (e : random_engine) :
  advanced 1 e (snd (bernoulli x e)).
Proof. unfold advanced, bernoulli. cbn. repeat split. lia. Qed.

Lemma normal_noise_advanced (x : R) (e : random_engine) :
  advanced 1 e (snd (normal_noise x e)).
Proof. unfold advanced, normal_noise. cbn. repeat split. lia. Qed.

Lemma activate_visible_engine (desc : descriptor) (isfinite : R -> bool)
  (h_a h_s v_a v_s : buffer) (r r' : layer tensor3) (e e' : random_engine) :
  valid_units desc = true ->
  activate_visible desc isfinite true true h_a h_s v_a v_s (r, e)
  = Done (r', e') ->
  e' = snd (visible_sampling desc
              (visible_activation desc (visible_pre desc r (load r h_s))) e).
Proof.
  intros Hv.
  unfold activate_visible, V_SAMPLE_PROBS, V_PROBS.
  unfold visible_sampling, visible_activation, visible_pre.
  unfold valid_units in Hv.
  destruct (visible_unit desc); try discriminate Hv;
    cbn [when andb orb unit_type_eqb is_relu];
    unfold andThen, static_assert, skip, assign, assign_sampled,
      nan_check_deep;
    cbn [fst snd];
    repeat first
      [ rewrite load_store_same
      | rewrite get_c_rep_store
      | match goal with
        | |- context [if ?b then Done _ else Fatal] =>
            destruct b; [|discriminate]
        end
      | progress cbn [fst snd]
      | match goal with
        | |- context [sample3 ?f ?t ?e] => destruct (sample3 f t e)
        end ];
    intros H; injection H as <- <-; reflexivity.
Qed.

(** X7: sampling a layer consumes one draw of the engine per unit: a hidden
    activation with BINARY units that samples advances the engine by the
    number of hidden units, and a visible activation that samples by the
    number of visible units, for tensors of the dimensions of the layer;
    the streams of draws themselves are untouched. *)
Theorem sampling_consumes_one_draw_per_unit
  (desc : descriptor) (isfinite : R -> bool)
  (logistic_noise : sampler) (ranged_noise : R -> sampler)
  (h_a h_s v_a v_s : buffer)
  (r r' : layer tensor3) (e e' : random_engine) :
  valid_units desc = true ->
  proper desc ->
  well_formed desc r ->
  (hidden_unit desc = BINARY ->
   shape3 (NC desc) (NV1 desc) (NV2 desc) (load r v_a) ->
   activate_hidden desc isfinite logistic_noise ranged_noise
     true true h_a h_s v_a v_s (r, e) = Done (r', e') ->
   advanced (hidden_units desc) e e')
  /\
  (shape3 (K desc) (NH1 desc) (NH2 desc) (load r h_s) ->
   activate_visible desc isfinite true true h_a h_s v_a v_s (r, e)
   = Done (r', e') ->
   advanced (visible_units desc) e e').
Proof.
  intros Hv Hp Hw. split.
  - intros Hh Sv H.
    pose proof (activate_hidden_binary desc isfinite logistic_noise
                  ranged_noise true h_a h_s v_a v_s r r' e e' Hh Hv H)
      as [_ ->].
    apply sample3_advanced; [apply bernoulli_advanced|].
    apply shape3_map3. apply hidden_pre_shape; assumption.
  - intros Sh H.
    rewrite (activate_visible_engine desc isfinite h_a h_s v_a v_s
               r r' e e' Hv H).
    assert (Sa : shape3 (NC desc) (NV1 desc) (NV2 desc)
                   (visible_activation desc
                      (visible_pre desc r (load r h_s)))).
    { unfold visible_activation.
      destruct (visible_unit desc); try apply shape3_map3;
        apply visible_pre_shape; assumption. }
    unfold visible_sampling, valid_units in *.
    destruct (visible_unit desc); try discriminate Hv;
      apply sample3_advanced;
      solve [ apply bernoulli_advanced | apply normal_noise_advanced
            | exact Sa ].
Qed.

Lemma sampling_consumes_one_draw_per_unit_witness :
  exists r' e',
    activate_visible (example.conv_desc BINARY BINARY) example.any_finite
      true true h1_a h1_s v2_a v2_s (example.one_layer, example.engine)
    = Done (r', e')
    /\ cursor e' = 4%nat.
Proof.
  eexists. eexists. split; [reflexivity|].
  assert (Hp : proper (example.conv_desc BINARY BINARY))
    by (unfold proper; cbn; lia).
  assert (Hw : well_formed (example.conv_desc BINARY BINARY)
                 example.one_layer)
    by (unfold well_formed; repeat split; repeat constructor).
  refine (proj1 (proj2 (sampling_consumes_one_draw_per_unit
                          (example.conv_desc BINARY BINARY) example.any_finite
                          example.no_noise (fun _ => example.no_noise)
                          h1_a h1_s v2_a v2_s example.one_layer _
                          example.engine _ eq_refl Hp Hw) _ eq_refl)).
  repeat constructor.
Defined.

(** ** Shapes of the outputs *)

Lemma well_formed_frame {T : Type} (desc : descriptor) (x y : buffer)
  (r r' : layer T) :
  frame x y r r' -> well_formed desc r -> well_formed desc r'.
Proof.
  intros [(Hw & Hb & Hc) _] (Sw & Lb & Lc). unfold well_formed.
  rewrite Hw, Hb, Hc. auto.
Qed.

Lemma hidden_sampling_shape (desc : descriptor)
  (logistic_noise : sampler) (ranged_noise : R -> sampler)
  (n0 n1 n2 : nat) (pre : tensor3) (e : random_engine) :
  shape3 n0 n1 n2 pre ->
  shape3 n0 n1 n2
    (fst (hidden_sampling desc logistic_noise ranged_noise pre e)).
Proof.
  intros Sp. unfold hidden_sampling.
  destruct (hidden_unit desc).
  - apply shape3_sample3, shape3_map3, Sp.
  - exact Sp.
  - pose proof (shape3_sample3 logistic_noise _ _ _ _ e Sp) as Hs.
    destruct (sample3 logistic_noise pre e). apply shape3_map3, Hs.
  - pose proof (shape3_sample3 (ranged_noise 6) _ _ _ _ e Sp) as Hs.
    destruct (sample3 (ranged_noise 6) pre e). apply shape3_map3, Hs.
  - pose proof (shape3_sample3 (ranged_noise 1) _ _ _ _ e Sp) as Hs.
    destruct (sample3 (ranged_noise 1) pre e). apply shape3_map3, Hs.
Qed.

Lemma visible_activation_shape (desc : descriptor) (n0 n1 n2 : nat)
  (pre : tensor3) :
  shape3 n0 n1 n2 pre -> shape3 n0 n1 n2 (visible_activation desc pre).
Proof.
  intros Sp. unfold visible_activation.
  destruct (visible_unit desc); try apply shape3_map3; exact Sp.
Qed.

Lemma visible_sampling_shape (desc : descriptor) (n0 n1 n2 : nat)
  (probs : tensor3) (e : random_engine) :
  shape3 n0 n1 n2 probs ->
  shape3 n0 n1 n2 (fst (visible_sampling desc probs e)).
Proof.
  intros Sp. unfold visible_sampling.
  destruct (visible_unit desc); try apply shape3_sample3; exact Sp.
Qed.

(** X8: for a layer whose parameters have the dimensions of its description,
    a hidden activation of a visible tensor of the visible dimensions
    leaves tensors of the hidden dimensions in its outputs, a visible
    activation of a hidden tensor of the hidden dimensions leaves tensors
    of the visible dimensions, and the layer is still well formed
    afterwards, so that the activations can be chained.  (When samples
    are requested the two outputs are distinct buffers.) *)
Theorem activation_outputs_have_layer_dimensions
  (desc : descriptor) (isfinite : R -> bool)
  (logistic_noise : sampler) (ranged_noise : R -> sampler)
  (S : bool) (h_a h_s v_a v_s : buffer)
  (r r' : layer tensor3) (e e' : random_engine) :
  valid_units desc = true ->
  proper desc ->
  well_formed desc r ->
  (shape3 (NC desc) (NV1 desc) (NV2 desc) (load r v_a) ->
   (S = true -> h_a <> h_s) ->
   activate_hidden desc isfinite logistic_noise ranged_noise
     true S h_a h_s v_a v_s (r, e) = Done (r', e') ->
   shape3 (K desc) (NH1 desc) (NH2 desc) (load r' h_a)
   /\ (S = true -> shape3 (K desc) (NH1 desc) (NH2 desc) (load r' h_s))
   /\ well_formed desc r')
  /\
  (shape3 (K desc) (NH1 desc) (NH2 desc) (load r h_s) ->
   (S = true -> v_a <> v_s) ->
   activate_visible desc isfinite true S h_a h_s v_a v_s (r, e)
   = Done (r', e') ->
   shape3 (NC desc) (NV1 desc) (NV2 desc) (load r' v_a)
   /\ (S = true -> shape3 (NC desc) (NV1 desc) (NV2 desc) (load r' v_s))
   /\ well_formed desc r').
Proof.
  intros Hv Hp Hw. split.
  - intros Sv Hd H.
    pose proof (hidden_pre_shape desc r Hp Hw _ Sv) as Spre.
    assert (Hw' : well_formed desc r').
    { eapply well_formed_frame; [|exact Hw].
      exact (activate_hidden_frame desc isfinite logistic_noise ranged_noise
               true S h_a h_s v_a v_s _ _ H). }
    destruct S.
    + destruct (activate_hidden_sampled desc isfinite logistic_noise
                  ranged_noise h_a h_s v_a v_s r r' e e' Hv (Hd eq_refl) H)
        as [Ha Hs].
      split; [rewrite Ha; apply shape3_map3, Spre|].
      split; [intros _|exact Hw'].
      change (load r' h_s) with (fst (load r' h_s, e')). rewrite Hs.
      apply hidden_sampling_shape, Spre.
    + destruct (activate_hidden_probabilities desc isfinite logistic_noise
                  ranged_noise h_a h_s v_a v_s r r' e e' Hv H)
        as [[_ Hl] _].
      split; [|split; [discriminate | exact Hw']].
      rewrite Hl, load_store_same. apply shape3_map3, Spre.
  - intros Sh Hd H.
    pose proof (visible_pre_shape desc r Hp Hw _ Sh) as Spre.
    assert (Hw' : well_formed desc r').
    { eapply well_formed_frame; [|exact Hw].
      exact (activate_visible_frame desc isfinite
               true S h_a h_s v_a v_s _ _ H). }
    destruct S.
    + destruct (activate_visible_sampled desc isfinite
                  h_a h_s v_a v_s r r' e e' Hv (Hd eq_refl) H)
        as [Ha Hs].
      split; [rewrite Ha; apply visible_activation_shape, Spre|].
      split; [intros _|exact Hw'].
      change (load r' v_s) with (fst (load r' v_s, e')). rewrite Hs, Ha.
      apply visible_sampling_shape, visible_activation_shape, Spre.
    + destruct (activate_visible_probabilities desc isfinite
                  h_a h_s v_a v_s r r' e e' Hv H)
        as [[_ Hl] _].
      split; [|split; [discriminate | exact Hw']].
      rewrite Hl, load_store_same. apply visible_activation_shape, Spre.
Qed.

Lemma activation_outputs_have_layer_dimensions_witness :
  exists r' e',
    activate_hidden (example.conv_desc BINARY BINARY) example.any_finite
      example.no_noise (fun _ => example.no_noise)
      true true h1_a h1_s v1 v1 (example.one_layer, example.engine)
    = Done (r', e')
    /\ shape3 1 1 1 (load r' h1_a)
    /\ shape3 1 1 1 (load r' h1_s).
Proof.
  eexists. eexists. split; [reflexivity|].
  assert (Hp : proper (example.conv_desc BINARY BINARY))
    by (unfold proper; cbn; lia).
  assert (Hw : well_formed (example.conv_desc BINARY BINARY)
                 example.one_layer)
    by (unfold well_formed; repeat split; repeat constructor).
  assert (Sv : shape3 1 2 2 (load example.one_layer v1))
    by (repeat constructor).
  destruct (proj1 (activation_outputs_have_layer_dimensions
                     (example.conv_desc BINARY BINARY) example.any_finite
                     example.no_noise (fun _ => example.no_noise)
                     true h1_a h1_s v1 v1 example.one_layer _
                     example.engine _ eq_refl Hp Hw)
              Sv ltac:(discriminate) eq_refl) as (Ha & Hs & _).
  split; [exact Ha | exact (Hs eq_refl)].
Defined.

(** ** The batch activations act sample by sample *)

Lemma map_as_tab {A B : Type} (f : A -> B) (d : A) (l : list A) :
  map f l = tab (length l) (fun n => f (nth n l d)).
Proof.
  induction l as [|x l IH]; [reflexivity|].
  cbn [length]. rewrite tab_S. cbn [map nth]. now rewrite IH.
Qed.

Lemma zipw_repeat_map {A B C D : Type} (f : A -> C -> D) (g : B -> C)
  (x : A) (l : list B) :
  zipw f (repeat x (length l)) (map g l) = map (fun y => f x (g y)) l.
Proof. induction l as [|y l IH]; [reflexivity|]. simpl. now rewrite IH. Qed.

Lemma shape4_nth (n n0 n1 n2 : nat) (t : tensor4) (i : nat) :
  shape4 n n0 n1 n2 t -> (i < n)%nat -> shape3 n0 n1 n2 (nth i t []).
Proof.
  intros [Hl Hf] Hi. rewrite Forall_forall in Hf. apply Hf, nth_In. lia.
Qed.

Lemma conv_valid_sample_by_sample (n n0 n1 n2 : nat) (input kernel : tensor4) :
  (1 <= n0)%nat -> (1 <= n1)%nat ->
  shape4 n n0 n1 n2 input ->
  conv_4d_valid_flipped input kernel
  = map (fun v => first (conv_4d_valid_flipped (reshape_v_a v) kernel)) input.
Proof.
  intros H0 H1 Si. rewrite (map_as_tab (A:=tensor3) _ [] input).
  unfold conv_4d_valid_flipped at 1. unfold dim0 at 1.
  apply tab_ext. intros i Hi. rewrite first_conv_valid.
  assert (Hn : (i < n)%nat) by (destruct Si as [Hl _]; lia).
  destruct (shape4_dims _ _ _ _ _ Si) as (_ & _ & -> & ->); try lia.
  destruct (shape3_dims _ _ _ _ (shape4_nth _ _ _ _ _ _ Si Hn))
    as (_ & -> & ->); try lia.
  reflexivity.
Qed.

Lemma conv_full_sample_by_sample (n n0 n1 n2 : nat) (input kernel : tensor4) :
  (1 <= n0)%nat -> (1 <= n1)%nat ->
  shape4 n n0 n1 n2 input ->
  conv_4d_full input kernel
  = map (fun h => first (conv_4d_full (reshape_h_a h) kernel)) input.
Proof.
  intros H0 H1 Si. rewrite (map_as_tab (A:=tensor3) _ [] input).
  unfold conv_4d_full at 1. unfold dim0 at 1.
  apply tab_ext. intros i Hi. rewrite first_conv_full.
  assert (Hn : (i < n)%nat) by (destruct Si as [Hl _]; lia).
  destruct (shape4_dims _ _ _ _ _ Si) as (_ & _ & -> & ->); try lia.
  destruct (shape3_dims _ _ _ _ (shape4_nth _ _ _ _ _ _ Si Hn))
    as (_ & -> & ->); try lia.
  reflexivity.
Qed.

Lemma batch_hidden_pre_sample_by_sample {T : Type} (desc : descriptor)
  (r : layer T) (n : nat) (input : tensor4) :
  proper desc ->
  shape4 n (NC desc) (NV1 desc) (NV2 desc) input ->
  batch_hidden_pre desc r input = map (hidden_pre desc r) input.
Proof.
  intros (Hc & Hk & [H1 H1'] & [H2 H2']) Si.
  unfold batch_hidden_pre, get_batch_b_rep, rep_l, dim0, zip4.
  rewrite (conv_valid_sample_by_sample n (NC desc) (NV1 desc) (NV2 desc))
    by (try lia; exact Si).
  rewrite zipw_repeat_map. reflexivity.
Qed.

Lemma batch_visible_pre_sample_by_sample {T : Type} (desc : descriptor)
  (r : layer T) (n : nat) (input : tensor4) :
  proper desc ->
  shape4 n (K desc) (NH1 desc) (NH2 desc) input ->
  batch_visible_pre desc r input = map (visible_pre desc r) input.
Proof.
  intros (Hc & Hk & [H1 H1'] & [H2 H2']) Si.
  unfold batch_visible_pre, get_batch_c_rep, rep_l, dim0, zip4.
  rewrite (conv_full_sample_by_sample n (K desc) (NH1 desc) (NH2 desc))
    by (try lia; exact Si).
  rewrite zipw_repeat_map. reflexivity.
Qed.

Lemma batch_c_rep_after_conv (desc : descriptor) (v_a h_s : buffer)
  (r : layer tensor4) :
  let r1 := store v_a (conv_4d_full (load r h_s) (w r)) r in
  get_batch_c_rep desc r1 (load r1 h_s) = get_batch_c_rep desc r (load r h_s).
Proof.
  cbv zeta. unfold get_batch_c_rep, get_c_rep. cbn [c store]. f_equal.
  unfold load, store; cbn [mem].
  destruct (buffer_eqb v_a h_s) eqn:E; [|reflexivity].
  apply buffer_eqb_eq in E. subst h_s.
  unfold conv_4d_full, dim0. now rewrite tab_length.
Qed.

Ltac run_plain :=
  unfold andThen, static_assert, skip, assign, assign_sampled, nan_check_deep;
  cbn [fst snd];
  repeat first
    [ rewrite load_store_same
    | match goal with
      | |- context [if ?b then Done _ else Fatal] => destruct b; [|discriminate]
      end
    | progress cbn [fst snd] ];
  let H := fresh in intros H; injection H as <- <-;
  rewrite ?load_store_same.

Lemma batch_activate_hidden_probabilities
  (desc : descriptor) (isfinite : R -> bool)
  (logistic_noise : sampler) (ranged_noise : R -> sampler)
  (h_a h_s v_a v_s : buffer)
  (r r' : layer tensor4) (e e' : random_engine) :
  valid_units desc = true ->
  batch_activate_hidden desc isfinite logistic_noise ranged_noise
    true false h_a h_s v_a v_s (r, e) = Done (r', e') ->
  load r' h_a
  = map4 (hidden_law desc) (batch_hidden_pre desc r (load r v_a)).
Proof.
  intros Hv. unfold batch_activate_hidden, H_SAMPLE_PROBS, H_PROBS, H_PROBS2.
  unfold hidden_law, batch_hidden_pre. unfold valid_units in Hv.
  pose proof (batch_b_rep_after_conv desc h_a v_a r) as Hrep.
  cbv zeta in Hrep.
  destruct (hidden_unit desc), (visible_unit desc); try discriminate Hv;
    cbn [when andb orb unit_type_eqb is_relu];
    unfold andThen, static_assert, skip, assign; cbn [fst snd];
    rewrite Hrep; run_plain; reflexivity.
Qed.

Lemma batch_activate_visible_probabilities
  (desc : descriptor) (isfinite : R -> bool)
  (h_a h_s v_a v_s : buffer)
  (r r' : layer tensor4) (e e' : random_engine) :
  valid_units desc = true ->
  batch_activate_visible desc isfinite true false h_a h_s v_a v_s (r, e)
  = Done (r', e') ->
  load r' v_a
  = match visible_unit desc with
    | BINARY => map4 sigmoid (batch_visible_pre desc r (load r h_s))
    | _ => batch_visible_pre desc r (load r h_s)
    end.
Proof.
  intros Hv. unfold batch_activate_visible, V_SAMPLE_PROBS, V_PROBS.
  unfold batch_visible_pre. unfold valid_units in Hv.
  pose proof (batch_c_rep_after_conv desc v_a h_s r) as Hrep.
  cbv zeta in Hrep.
  destruct (visible_unit desc); try discriminate Hv;
    cbn [when andb orb unit_type_eqb is_relu];
    unfold andThen, static_assert, skip, assign; cbn [fst snd];
    rewrite Hrep; run_plain; reflexivity.
Qed.

(** X9: on a batch of samples of the dimensions of the layer, the batch
    activations compute for every sample the probabilities that the
    activations of one sample compute for it. *)
Theorem batch_activation_is_sample_by_sample
  (desc : descriptor) (isfinite : R -> bool)
  (logistic_noise : sampler) (ranged_noise : R -> sampler)
  (h_a h_s v_a v_s : buffer) (n : nat)
  (r r' : layer tensor4) (e e' : random_engine) :
  valid_units desc = true ->
  proper desc ->
  (shape4 n (NC desc) (NV1 desc) (NV2 desc) (load r v_a) ->
   batch_activate_hidden desc isfinite logistic_noise ranged_noise
     true false h_a h_s v_a v_s (r, e) = Done (r', e') ->
   load r' h_a
   = map (fun v => map3 (hidden_law desc) (hidden_pre desc r v))
       (load r v_a))
  /\
  (shape4 n (K desc) (NH1 desc) (NH2 desc) (load r h_s) ->
   batch_activate_visible desc isfinite true false h_a h_s v_a v_s (r, e)
   = Done (r', e') ->
   load r' v_a
   = map (fun h => visible_activation desc (visible_pre desc r h))
       (load r h_s)).
Proof.
  intros Hv Hp. split; intros Si H.
  - rewrite (batch_activate_hidden_probabilities desc isfinite logistic_noise
               ranged_noise h_a h_s v_a v_s r r' e e' Hv H).
    rewrite (batch_hidden_pre_sample_by_sample desc r n) by assumption.
    unfold map4. apply map_map.
  - rewrite (batch_activate_visible_probabilities desc isfinite
               h_a h_s v_a v_s r r' e e' Hv H).
    rewrite (batch_visible_pre_sample_by_sample desc r n) by assumption.
    unfold visible_activation.
    destruct (visible_unit desc); try reflexivity.
    unfold map4. apply map_map.
Qed.

Lemma batch_activation_is_sample_by_sample_witness :
  exists r' e',
    batch_activate_hidden (example.conv_desc BINARY BINARY)
      example.any_finite example.no_noise (fun _ => example.no_noise)
      true false h1_a h1_s v1 v1 (example.batch_layer, example.engine)
    = Done (r', e')
    /\ load r' h1_a
       = [map3 sigmoid
            (hidden_pre (example.conv_desc BINARY BINARY) example.batch_layer
               example.image)].
Proof.
  eexists. eexists. split; [reflexivity|].
  assert (Hp : proper (example.conv_desc BINARY BINARY))
    by (unfold proper; cbn; lia).
  refine (proj1 (batch_activation_is_sample_by_sample
                   (example.conv_desc BINARY BINARY) example.any_finite
                   example.no_noise (fun _ => example.no_noise)
                   h1_a h1_s v1 v1 1 example.batch_layer _ example.engine _
                   eq_refl Hp) _ eq_refl).
  repeat constructor.
Defined.

(** * Further properties of the energies *)

(** ** Tensors as tables of their elements *)

Lemma list_as_tab {A : Type} (d : A) (l : list A) :
  l = tab (length l) (fun i => nth i l d).
Proof. rewrite <- (map_id l) at 1. apply (map_as_tab (fun x => x)). Qed.

Lemma tensor_as_tab (n0 n1 n2 : nat) (t : tensor3) :
  shape3 n0 n1 n2 t ->
  t = tab n0 (fun k => tab n1 (fun i => tab n2 (fun j => at3 t k i j))).
Proof.
  intros St.
  transitivity (tab (length t) (fun k => nth k t []));
    [apply list_as_tab|].
  replace (length t) with n0 by (symmetry; apply St).
  apply tab_ext. intros k Hk.
  pose proof (shape3_nth _ _ _ _ _ St Hk) as Sm.
  transitivity (tab (length (nth k t [])) (fun i => nth i (nth k t []) []));
    [apply list_as_tab|].
  replace (length (nth k t [])) with n1 by (symmetry; apply Sm).
  apply tab_ext. intros i Hi.
  pose proof (shape2_nth _ _ _ _ Sm Hi) as Su. unfold shape1 in Su.
  transitivity (tab (length (nth i (nth k t []) []))
                  (fun j => nth j (nth i (nth k t []) []) 0));
    [apply list_as_tab|].
  rewrite Su. reflexivity.
Qed.

Lemma zipw_tab {A B C : Type} (f : A -> B -> C) (n : nat)
  (g : nat -> A) (g' : nat -> B) :
  zipw f (tab n g) (tab n g') = tab n (fun i => f (g i) (g' i)).
Proof.
  revert g g'. induction n as [|n IH]; intros g g'; [reflexivity|].
  rewrite !tab_S. cbn [zipw]. now rewrite IH.
Qed.

Lemma zip3_tab (f : R -> R -> R) (n0 n1 n2 : nat)
  (F G : nat -> nat -> nat -> R) :
  zip3 f (tab n0 (fun k => tab n1 (fun i => tab n2 (fun j => F k i j))))
         (tab n0 (fun k => tab n1 (fun i => tab n2 (fun j => G k i j))))
  = tab n0 (fun k => tab n1 (fun i => tab n2 (fun j => f (F k i j) (G k i j)))).
Proof.
  unfold zip3, zip2, zip1. rewrite zipw_tab.
  apply tab_ext; intros k _. rewrite zipw_tab.
  apply tab_ext; intros i _. apply zipw_tab.
Qed.

Lemma map3_tab (f : R -> R) (n0 n1 n2 : nat) (F : nat -> nat -> nat -> R) :
  map3 f (tab n0 (fun k => tab n1 (fun i => tab n2 (fun j => F k i j))))
  = tab n0 (fun k => tab n1 (fun i => tab n2 (fun j => f (F k i j)))).
Proof.
  unfold map3, map2. rewrite tab_map.
  apply tab_ext; intros k _. rewrite tab_map.
  apply tab_ext; intros i _. apply tab_map.
Qed.

Lemma sum1_tab (n : nat) (f : nat -> R) : sum1 (tab n f) = rsum n f.
Proof.
  revert f. induction n as [|n IH]; intros f; [reflexivity|].
  rewrite tab_S, rsum_shift. cbn [sum1 fold_right]. f_equal. apply IH.
Qed.

Lemma sum3_tab (n0 n1 n2 : nat) (F : nat -> nat -> nat -> R) :
  sum3 (tab n0 (fun k => tab n1 (fun i => tab n2 (fun j => F k i j))))
  = rsum n0 (fun k => rsum n1 (fun i => rsum n2 (fun j => F k i j))).
Proof.
  unfold sum3. rewrite tab_map, sum1_tab.
  apply rsum_ext; intros k _. unfold sum2. rewrite tab_map, sum1_tab.
  apply rsum_ext; intros i _. apply sum1_tab.
Qed.

Lemma rsum_le (n : nat) (f g : nat -> R) :
  (forall i, (i < n)%nat -> f i <= g i) -> rsum n f <= rsum n g.
Proof.
  induction n as [|n IH]; intros H; simpl; [lra|].
  apply Rplus_le_compat; [apply IH; auto | apply H; lia].
Qed.

Lemma all3_at3 (Q : R -> Prop) (n0 n1 n2 : nat) (t : tensor3) (k i j : nat) :
  shape3 n0 n1 n2 t -> all3 Q t ->
  (k < n0)%nat -> (i < n1)%nat -> (j < n2)%nat -> Q (at3 t k i j).
Proof.
  intros St Ha Hk Hi Hj. unfold at3, at2, at1.
  pose proof (shape3_nth _ _ _ _ _ St Hk) as Sm.
  pose proof (shape2_nth _ _ _ _ Sm Hi) as Su. unfold shape1 in Su.
  unfold all3 in Ha. rewrite Forall_forall in Ha.
  assert (Hm : Forall (Forall Q) (nth k t []))
    by (apply Ha, nth_In; destruct St; lia).
  rewrite Forall_forall in Hm.
  assert (Hu : Forall Q (nth i (nth k t []) []))
    by (apply Hm, nth_In; destruct Sm; lia).
  rewrite Forall_forall in Hu. apply Hu, nth_In. lia.
Qed.

(** ** The energy as a pairing with the hidden pre-activation *)

Lemma pairing_split (n0 n1 n2 : nat) (s t h : tensor3) :
  shape3 n0 n1 n2 s -> shape3 n0 n1 n2 t -> shape3 n0 n1 n2 h ->
  sum3 (zip3 Rmult s h) + sum3 (zip3 Rmult h t)
  = sum3 (zip3 Rmult h (zip3 Rplus s t)).
Proof.
  intros Ss St Sh.
  rewrite (tensor_as_tab _ _ _ s Ss), (tensor_as_tab _ _ _ t St),
    (tensor_as_tab _ _ _ h Sh).
  rewrite !zip3_tab, !sum3_tab, <- rsum_plus.
  apply rsum_ext; intros k _. rewrite <- rsum_plus.
  apply rsum_ext; intros i _. rewrite <- rsum_plus.
  apply rsum_ext; intros j _. ring.
Qed.

Section EnergyPairing.

Variable desc : descriptor.
Context {T : Type}.
Variable r : layer T.
Variable v : tensor3.

Hypothesis desc_proper : proper desc.
Hypothesis r_well_formed : well_formed desc r.
Hypothesis hidden_binary : hidden_unit desc = BINARY.
Hypothesis units_valid : valid_units desc = true.
Hypothesis v_shape : shape3 (NC desc) (NV1 desc) (NV2 desc) v.

Lemma conv_shape :
  shape3 (K desc) (NH1 desc) (NH2 desc)
    (first (conv_4d_valid_flipped (reshape_v_a v) (w r))).
Proof.
  destruct desc_proper as (Hc & Hk & [H1 H1'] & [H2 H2']).
  destruct r_well_formed as (Sw & Lb & Lc). unfold NW1, NW2 in Sw.
  rewrite first_conv_valid.
  destruct (shape4_dims _ _ _ _ _ Sw) as (-> & -> & -> & ->); try lia.
  destruct (shape3_dims _ _ _ _ v_shape) as (_ & -> & ->); try lia.
  replace (NV1 desc + 1 - (NV1 desc - NH1 desc + 1))%nat with (NH1 desc)
    by lia.
  replace (NV2 desc + 1 - (NV2 desc - NH2 desc + 1))%nat with (NH2 desc)
    by lia.
  apply shape3_tab.
Qed.

Lemma energy_as_pairing (h : tensor3) :
  shape3 (K desc) (NH1 desc) (NH2 desc) h ->
  energy_impl desc r v h
  = visible_term desc r v - sum3 (zip3 Rmult h (hidden_pre desc r v)).
Proof.
  intros Sh. destruct r_well_formed as (Sw & Lb & Lc).
  assert (Sb : shape3 (K desc) (NH1 desc) (NH2 desc) (get_b_rep desc r))
    by (unfold get_b_rep; rewrite <- Lb; apply shape3_rep).
  unfold hidden_pre. rewrite <- (pairing_split _ _ _ _ _ _ Sb conv_shape Sh).
  rewrite <- (hidden_bias_dot desc r h Lb Sh).
  unfold energy_impl, visible_term, energy_tmp. rewrite hidden_binary.
  unfold valid_units in units_valid. rewrite hidden_binary in units_valid.
  destruct (visible_unit desc); try discriminate units_valid;
    cbn [unit_type_eqb andb]; ring.
Qed.

Lemma free_energy_as_sum :
  free_energy_impl desc r v
  = visible_term desc r v - sum3 (map3 log1pexp (hidden_pre desc r v)).
Proof.
  unfold free_energy_impl, visible_term, hidden_pre, energy_tmp.
  rewrite hidden_binary.
  unfold valid_units in units_valid. rewrite hidden_binary in units_valid.
  destruct (visible_unit desc); try discriminate units_valid;
    cbn [unit_type_eqb andb]; reflexivity.
Qed.

End EnergyPairing.

(** ** The free energy bounds the energy from below *)

Lemma product_below_log1pexp (h x : R) :
  0 <= h <= 1 -> h * x <= log1pexp x.
Proof.
  intros [H0 H1]. unfold log1pexp.
  pose proof (exp_pos x) as Hx.
  destruct (Rle_dec 0 x) as [Hp|Hn].
  - apply Rle_trans with x; [nra|].
    rewrite <- (ln_exp x) at 1. left. apply ln_increasing; lra.
  - apply Rle_trans with 0; [nra|].
    rewrite <- ln_1. left. apply ln_increasing; lra.
Qed.

(** X10: with BINARY hidden units, for tensors of the dimensions of the layer,
    the free energy of a visible configuration is at most its energy with
    any hidden configuration whose elements lie in [0,1], such as the
    hidden probabilities that the activation computes. *)
Theorem free_energy_below_energy
  (desc : descriptor) (T : Type) (r : layer T) (v h : tensor3) :
  proper desc ->
  well_formed desc r ->
  hidden_unit desc = BINARY ->
  valid_units desc = true ->
  shape3 (NC desc) (NV1 desc) (NV2 desc) v ->
  shape3 (K desc) (NH1 desc) (NH2 desc) h ->
  all3 (fun x => 0 <= x <= 1) h ->
  free_energy_impl desc r v <= energy_impl desc r v h.
Proof.
  intros Hp Hw Hh Hv Sv Sh Hr.
  rewrite (energy_as_pairing desc r v Hp Hw Hh Hv Sv h Sh).
  rewrite (free_energy_as_sum desc r v Hh Hv).
  pose proof (hidden_pre_shape desc r Hp Hw v Sv) as Sx.
  cut (sum3 (zip3 Rmult h (hidden_pre desc r v))
       <= sum3 (map3 log1pexp (hidden_pre desc r v))); [lra|].
  rewrite (tensor_as_tab _ _ _ _ Sx) at 1 2.
  rewrite (tensor_as_tab _ _ _ _ Sh) at 1.
  rewrite zip3_tab, map3_tab, !sum3_tab.
  apply rsum_le; intros k Hk. apply rsum_le; intros i Hi.
  apply rsum_le; intros j Hj. apply product_below_log1pexp.
  apply (all3_at3 _ _ _ _ _ _ _ _ Sh Hr Hk Hi Hj).
Qed.

Lemma free_energy_below_energy_witness :
  free_energy_impl (example.conv_desc BINARY BINARY) example.one_layer
    example.image
  <= energy_impl (example.conv_desc BINARY BINARY) example.one_layer
       example.image example.feature.
Proof.
  apply free_energy_below_energy.
  - unfold proper. cbn. lia.
  - unfold well_formed. repeat split; repeat constructor.
  - reflexivity.
  - reflexivity.
  - repeat constructor.
  - repeat constructor.
  - repeat constructor; lra.
Defined.

(** ** The free energy marginalises the hidden units *)

Lemma rprod_ext (n : nat) (f g : nat -> R) :
  (forall i, (i < n)%nat -> f i = g i) -> rprod n f = rprod n g.
Proof.
  induction n as [|n IH]; intros H; simpl; [reflexivity|].
  rewrite IH, (H n); auto.
Qed.

Lemma rprod_shift (n : nat) (f : nat -> R) :
  rprod (S n) f = f O * rprod n (fun i => f (S i)).
Proof.
  induction n as [|n IH].
  - simpl. ring.
  - change (rprod (S (S n)) f) with (rprod (S n) f * f (S n)).
    rewrite IH. simpl. ring.
Qed.

Lemma exp_rsum (n : nat) (f : nat -> R) :
  exp (rsum n f) = rprod n (fun i => exp (f i)).
Proof.
  induction n as [|n IH]; simpl; [apply exp_0|].
  now rewrite exp_plus, IH.
Qed.

Lemma sum1_app (l l' : vec) : sum1 (l ++ l') = sum1 l + sum1 l'.
Proof. induction l as [|x l IH]; simpl; [lra | rewrite IH; lra]. Qed.

Lemma sum1_map_scale {A : Type} (k : R) (f : A -> R) (l : list A) :
  sum1 (map (fun x => k * f x) l) = k * sum1 (map f l).
Proof. induction l as [|x l IH]; simpl; [lra | rewrite IH; lra]. Qed.

Lemma sum_prodw_cons {A : Type} (phi : nat -> A -> R)
  (W : list (list A)) (Y : list A) :
  sum1 (map (prodw phi) (flat_map (fun x => map (cons x) W) Y))
  = sum1 (map (phi O) Y) * sum1 (map (prodw (fun i => phi (S i))) W).
Proof.
  induction Y as [|x Y IH]; cbn [flat_map map].
  - cbn. lra.
  - rewrite map_app, sum1_app, IH, map_map.
    cbn [prodw sum1 fold_right]. rewrite sum1_map_scale.
    unfold sum1. ring.
Qed.

Lemma sum_words_prodw {A : Type} (X : list A) (n : nat) (phi : nat -> A -> R) :
  sum1 (map (prodw phi) (words X n))
  = rprod n (fun i => sum1 (map (phi i) X)).
Proof.
  revert phi. induction n as [|n IH]; intros phi.
  - simpl. lra.
  - rewrite rprod_shift. cbn [words]. rewrite sum_prodw_cons.
    f_equal. apply IH.
Qed.

Lemma prodw_ext {A : Type} (phi psi : nat -> A -> R) (l : list A) :
  (forall i x, phi i x = psi i x) -> prodw phi l = prodw psi l.
Proof.
  revert phi psi. induction l as [|x l IH]; intros phi psi H; [reflexivity|].
  cbn [prodw]. rewrite H. f_equal. apply IH. intros i y. apply H.
Qed.

Lemma zipw_nil_r {A B C : Type} (f : A -> B -> C) (l : list A) :
  zipw f l [] = [].
Proof. destruct l; reflexivity. Qed.

Lemma exp_pairing {A B : Type} (d : A -> B -> R) (dB : B)
  (l : list A) (l' : list B) :
  (forall a, d a dB = 0) ->
  exp (sum1 (zipw d l l')) = prodw (fun i a => exp (d a (nth i l' dB))) l.
Proof.
  intros Hd. revert l'. induction l as [|a l IH]; intros l'.
  - simpl. apply exp_0.
  - destruct l' as [|y l'].
    + cbn [zipw prodw nth]. rewrite Hd.
      rewrite (prodw_ext _ (fun i a0 => exp (d a0 (nth i [] dB))))
        by (intros i x; destruct i; reflexivity).
      rewrite <- IH, zipw_nil_r. cbn [sum1 fold_right]. rewrite exp_0. ring.
    + cbn [zipw sum1 fold_right prodw nth]. rewrite exp_plus. f_equal.
      apply IH.
Qed.

Lemma sum_exp_words {A B : Type} (d : A -> B -> R) (dB : B)
  (X : list A) (n : nat) (l' : list B) :
  (forall a, d a dB = 0) ->
  sum1 (map (fun l => exp (sum1 (zipw d l l'))) (words X n))
  = rprod n (fun i => sum1 (map (fun a => exp (d a (nth i l' dB))) X)).
Proof.
  intros Hd. rewrite <- sum_words_prodw. f_equal.
  apply map_ext. intros l. apply exp_pairing, Hd.
Qed.

Lemma sum1_zip_nil_r (u : vec) : sum1 (zip1 Rmult u []) = 0.
Proof. destruct u; reflexivity. Qed.

Lemma sum2_zip_nil_r (m : mat) : sum2 (zip2 Rmult m []) = 0.
Proof. destruct m; reflexivity. Qed.

(** The sum over all binary hidden tensors of the exponential of their
    pairing with [x]. *)
Lemma sum_exp_binary_tensors (n0 n1 n2 : nat) (x : tensor3) :
  sum1 (map (fun h => exp (sum3 (zip3 Rmult h x))) (binary_tensors n0 n1 n2))
  = rprod n0 (fun k => rprod n1 (fun i => rprod n2 (fun j =>
      1 + exp (at3 x k i j)))).
Proof.
  unfold binary_tensors.
  transitivity
    (sum1 (map (fun h : tensor3 =>
                  exp (sum1 (zipw (fun m xm => sum2 (zip2 Rmult m xm)) h x)))
             (words (words (words [0; 1] n2) n1) n0))).
  { f_equal. apply map_ext. intros h. unfold sum3, zip3.
    now rewrite map_zipw. }
  rewrite (sum_exp_words (fun m xm => sum2 (zip2 Rmult m xm)) [])
    by apply sum2_zip_nil_r.
  apply rprod_ext; intros k _.
  transitivity
    (sum1 (map (fun m : mat =>
                  exp (sum1 (zipw (fun u xu => sum1 (zip1 Rmult u xu)) m
                               (nth k x []))))
             (words (words [0; 1] n2) n1))).
  { f_equal. apply map_ext. intros m. unfold sum2, zip2.
    now rewrite map_zipw. }
  rewrite (sum_exp_words (fun u xu => sum1 (zip1 Rmult u xu)) [])
    by apply sum1_zip_nil_r.
  apply rprod_ext; intros i _.
  unfold zip1.
  rewrite (sum_exp_words Rmult 0) by (intros a; ring).
  apply rprod_ext; intros j _.
  cbn [map sum1 fold_right]. unfold at3, at2, at1.
  rewrite Rmult_0_l, Rmult_1_l, exp_0. ring.
Qed.

Lemma exp_sum_log1pexp (n0 n1 n2 : nat) (x : tensor3) :
  shape3 n0 n1 n2 x ->
  exp (sum3 (map3 log1pexp x))
  = rprod n0 (fun k => rprod n1 (fun i => rprod n2 (fun j =>
      1 + exp (at3 x k i j)))).
Proof.
  intros Sx. rewrite (tensor_as_tab _ _ _ _ Sx) at 1.
  rewrite map3_tab, sum3_tab, exp_rsum.
  apply rprod_ext; intros k _. rewrite exp_rsum.
  apply rprod_ext; intros i _. rewrite exp_rsum.
  apply rprod_ext; intros j _. unfold log1pexp.
  apply exp_ln. pose proof (exp_pos (at3 x k i j)). lra.
Qed.

Lemma words_members {A : Type} (X : list A) (n : nat) (l : list A) :
  In l (words X n) -> length l = n /\ Forall (fun x => In x X) l.
Proof.
  revert l. induction n as [|n IH]; intros l Hl.
  - cbn [words] in Hl. destruct Hl as [<-|[]]. split; [reflexivity|constructor].
  - cbn [words] in Hl. apply in_flat_map in Hl as (x & Hx & Hl).
    apply in_map_iff in Hl as (l0 & <- & Hl0).
    destruct (IH _ Hl0) as [Ll Fl]. split; [simpl; now rewrite Ll|].
    constructor; assumption.
Qed.

Lemma binary_tensors_shape (n0 n1 n2 : nat) (h : tensor3) :
  In h (binary_tensors n0 n1 n2) ->
  shape3 n0 n1 n2 h /\ all3 (fun x => x = 0 \/ x = 1) h.
Proof.
  intros Hh. unfold binary_tensors in Hh.
  destruct (words_members _ _ _ Hh) as [Lh Fh].
  assert (Hm : Forall (fun m => shape2 n1 n2 m
                                /\ Forall (Forall (fun x => x = 0 \/ x = 1)) m)
                 h).
  { eapply Forall_impl; [|exact Fh]. intros m Hm.
    destruct (words_members _ _ _ Hm) as [Lm Fm].
    assert (Hu : Forall (fun u => shape1 n2 u
                                  /\ Forall (fun x => x = 0 \/ x = 1) u) m).
    { eapply Forall_impl; [|exact Fm]. intros u Hu.
      destruct (words_members _ _ _ Hu) as [Lu Fu]. split; [exact Lu|].
      eapply Forall_impl; [|exact Fu]. intros x [<-|[<-|[]]]; auto. }
    split; [split; [exact Lm|]|];
      (eapply Forall_impl; [|exact Hu]); intros u [H1 H2]; assumption. }
  split; [split; [exact Lh|]|];
    (eapply Forall_impl; [|exact Hm]); intros m [H1 H2]; assumption.
Qed.

(** X11: with BINARY hidden units, for a layer and a visible tensor of the
    dimensions of the description, the free energy is the energy with the
    hidden units summed out: [exp (- free_energy v)] is the sum of
    [exp (- energy v h)] over all the hidden configurations [h] with
    elements 0 or 1. *)
Theorem free_energy_marginalises_energy
  (desc : descriptor) (T : Type) (r : layer T) (v : tensor3) :
  proper desc ->
  well_formed desc r ->
  hidden_unit desc = BINARY ->
  valid_units desc = true ->
  shape3 (NC desc) (NV1 desc) (NV2 desc) v ->
  sum1 (map (fun h => exp (- energy_impl desc r v h))
          (binary_tensors (K desc) (NH1 desc) (NH2 desc)))
  = exp (- free_energy_impl desc r v).
Proof.
  intros Hp Hw Hh Hv Sv.
  pose proof (hidden_pre_shape desc r Hp Hw v Sv) as Sx.
  rewrite (free_energy_as_sum desc r v Hh Hv).
  replace (- (visible_term desc r v
              - sum3 (map3 log1pexp (hidden_pre desc r v))))
    with (- visible_term desc r v
          + sum3 (map3 log1pexp (hidden_pre desc r v))) by ring.
  rewrite exp_plus, (exp_sum_log1pexp _ _ _ _ Sx).
  rewrite <- sum_exp_binary_tensors, <- sum1_map_scale.
  f_equal. apply map_ext_in. intros h Hin.
  destruct (binary_tensors_shape _ _ _ _ Hin) as [Sh _].
  rewrite (energy_as_pairing desc r v Hp Hw Hh Hv Sv h Sh).
  rewrite <- exp_plus. f_equal. ring.
Qed.

Lemma free_energy_marginalises_energy_witness :
  sum1 (map (fun h =>
               exp (- energy_impl (example.conv_desc GAUSSIAN BINARY)
                        example.one_layer example.image h))
          [[[[0]]]; [[[1]]]])
  = exp (- free_energy_impl (example.conv_desc GAUSSIAN BINARY)
             example.one_layer example.image).
Proof.
  apply (free_energy_marginalises_energy (example.conv_desc GAUSSIAN BINARY)
           tensor3 example.one_layer example.image).
  - unfold proper. cbn. lia.
  - unfold well_formed. repeat split; repeat constructor.
  - reflexivity.
  - reflexivity.
  - repeat constructor.
Defined.

(** * Further properties of the dynamic RBM *)



(** ** The hidden probability and the energy *)

Lemma at3_tab (n0 n1 n2 : nat) (F : nat -> nat -> nat -> R) (k i j : nat) :
  (k < n0)%nat -> (i < n1)%nat -> (j < n2)%nat ->
  at3 (tab n0 (fun k => tab n1 (fun i => tab n2 (fun j => F k i j)))) k i j
  = F k i j.
Proof.
  intros Hk Hi Hj. unfold at3, at2, at1.
  rewrite (nth_tab n0) by exact Hk. rewrite (nth_tab n1) by exact Hi.
  now rewrite (nth_tab n2) by exact Hj.
Qed.

Lemma at3_map3 (f : R -> R) (n0 n1 n2 : nat) (t : tensor3) (k i j : nat) :
  shape3 n0 n1 n2 t ->
  (k < n0)%nat -> (i < n1)%nat -> (j < n2)%nat ->
  at3 (map3 f t) k i j = f (at3 t k i j).
Proof.
  intros St Hk Hi Hj. rewrite (tensor_as_tab _ _ _ _ St) at 1.
  rewrite map3_tab. now apply at3_tab.
Qed.

Lemma rsum_single (n k : nat) (f : nat -> R) :
  (k < n)%nat ->
  rsum n (fun i => if (i =? k)%nat then f i else 0) = f k.
Proof.
  induction n as [|n IH]; intros Hk; [lia|]. simpl.
  destruct (Nat.eq_dec k n) as [->|Hne].
  - rewrite Nat.eqb_refl. rewrite rsum_all_zero; [lra|].
    intros i Hi. destruct (Nat.eqb_spec i n); [lia | reflexivity].
  - rewrite IH by lia. destruct (Nat.eqb_spec n k); [lia | lra].
Qed.

Lemma rsum3_single (n0 n1 n2 k i j : nat) (U : nat -> nat -> nat -> R) :
  (k < n0)%nat -> (i < n1)%nat -> (j < n2)%nat ->
  rsum n0 (fun k' => rsum n1 (fun i' => rsum n2 (fun j' =>
    if (k' =? k)%nat && (i' =? i)%nat && (j' =? j)%nat
    then U k' i' j' else 0)))
  = U k i j.
Proof.
  intros Hk Hi Hj.
  rewrite <- (rsum_single n0 k (fun k' => U k' i j)) by exact Hk.
  apply rsum_ext; intros k' _.
  destruct (k' =? k)%nat; cbn [andb].
  - rewrite <- (rsum_single n1 i (fun i' => U k' i' j)) by exact Hi.
    apply rsum_ext; intros i' _.
    destruct (i' =? i)%nat; cbn [andb].
    + apply (rsum_single n2 j (fun j' => U k' i' j')), Hj.
    + apply rsum_zero.
  - apply rsum_all_zero; intros i' _. apply rsum_zero.
Qed.

Lemma rsum_minus (n : nat) (f g : nat -> R) :
  rsum n f - rsum n g = rsum n (fun i => f i - g i).
Proof. induction n as [|n IH]; simpl; [lra | rewrite <- IH; lra]. Qed.

(** Switching one hidden unit on lowers the pairing energy by the
    pre-activation of the unit. *)
Lemma pairing_difference (n0 n1 n2 k i j : nat) (h h' x : tensor3) :
  shape3 n0 n1 n2 h -> shape3 n0 n1 n2 h' -> shape3 n0 n1 n2 x ->
  (k < n0)%nat -> (i < n1)%nat -> (j < n2)%nat ->
  at3 h k i j = 0 ->
  (forall k' i' j',
     at3 h' k' i' j'
     = if (k' =? k)%nat && (i' =? i)%nat && (j' =? j)%nat
       then 1 else at3 h k' i' j') ->
  sum3 (zip3 Rmult h' x) - sum3 (zip3 Rmult h x) = at3 x k i j.
Proof.
  intros Sh Sh' Sx Hk Hi Hj H0 Hd.
  rewrite (tensor_as_tab _ _ _ _ Sx) at 1 2.
  rewrite (tensor_as_tab _ _ _ _ Sh) at 1.
  rewrite (tensor_as_tab _ _ _ _ Sh') at 1.
  rewrite !zip3_tab, !sum3_tab.
  rewrite <- (rsum3_single n0 n1 n2 k i j (at3 x)) by assumption.
  rewrite rsum_minus. apply rsum_ext; intros k' _.
  rewrite rsum_minus. apply rsum_ext; intros i' _.
  rewrite rsum_minus. apply rsum_ext; intros j' _.
  rewrite Hd.
  destruct (Nat.eqb_spec k' k) as [->|]; cbn [andb]; [|lra].
  destruct (Nat.eqb_spec i' i) as [->|]; cbn [andb]; [|lra].
  destruct (Nat.eqb_spec j' j) as [->|]; [|lra].
  rewrite H0. lra.
Qed.

(** X13: with BINARY hidden units, the probability that the hidden activation
    computes for a unit is the law of the unit applied to the drop of
    energy that switching this one unit on produces: its sigmoid for
    BINARY visible units, and the sigmoid of 100 times the drop for
    GAUSSIAN visible units. *)
Theorem hidden_probability_is_energy_drop
  (desc : descriptor) (isfinite : R -> bool)
  (logistic_noise : sampler) (ranged_noise : R -> sampler)
  (h_a h_s v_a v_s : buffer)
  (r r' : layer tensor3) (e e' : random_engine)
  (h h' : tensor3) (k i j : nat) :
  proper desc ->
  well_formed desc r ->
  hidden_unit desc = BINARY ->
  valid_units desc = true ->
  shape3 (NC desc) (NV1 desc) (NV2 desc) (load r v_a) ->
  shape3 (K desc) (NH1 desc) (NH2 desc) h ->
  shape3 (K desc) (NH1 desc) (NH2 desc) h' ->
  (k < K desc)%nat -> (i < NH1 desc)%nat -> (j < NH2 desc)%nat ->
  at3 h k i j = 0 ->
  (forall k' i' j',
     at3 h' k' i' j'
     = if (k' =? k)%nat && (i' =? i)%nat && (j' =? j)%nat
       then 1 else at3 h k' i' j') ->
  activate_hidden desc isfinite logistic_noise ranged_noise
    true false h_a h_s v_a v_s (r, e) = Done (r', e') ->
  let drop :=
    energy_impl desc r (load r v_a) h - energy_impl desc r (load r v_a) h' in
  at3 (load r' h_a) k i j
  = if unit_type_eqb (visible_unit desc) GAUSSIAN
    then sigmoid (100 * drop) else sigmoid drop.
Proof.
  intros Hp Hw Hh Hv Sv Sh Sh' Hk Hi Hj H0 Hd H drop.
  pose proof (hidden_pre_shape desc r Hp Hw _ Sv) as Sx.
  assert (Hdrop : drop = at3 (hidden_pre desc r (load r v_a)) k i j).
  { unfold drop.
    rewrite (energy_as_pairing desc r _ Hp Hw Hh Hv Sv h Sh).
    rewrite (energy_as_pairing desc r _ Hp Hw Hh Hv Sv h' Sh').
    rewrite <- (pairing_difference _ _ _ k i j h h' _ Sh Sh' Sx)
      by assumption.
    ring. }
  destruct (activate_hidden_probabilities desc isfinite logistic_noise
              ranged_noise h_a h_s v_a v_s r r' e e' Hv H) as [[_ Hl] _].
  rewrite Hl, load_store_same.
  rewrite (at3_map3 _ _ _ _ _ _ _ _ Sx Hk Hi Hj), <- Hdrop.
  unfold hidden_law. rewrite Hh.
  destruct (unit_type_eqb (visible_unit desc) GAUSSIAN);
    [apply sigmoid_gaussian_scaled | reflexivity].
Qed.

Lemma hidden_probability_is_energy_drop_witness :
  exists r' e',
    activate_hidden (example.conv_desc BINARY BINARY) example.any_finite
      example.no_noise (fun _ => example.no_noise)
      true false h1_a h1_s v1 v1 (example.one_layer, example.engine)
    = Done (r', e')
    /\ at3 (load r' h1_a) 0 0 0
       = sigmoid
           (energy_impl (example.conv_desc BINARY BINARY) example.one_layer
              example.image [[[0]]]
            - energy_impl (example.conv_desc BINARY BINARY) example.one_layer
                example.image [[[1]]]).
Proof.
  eexists. eexists. split; [reflexivity|].
  assert (Hp : proper (example.conv_desc BINARY BINARY))
    by (unfold proper; cbn; lia).
  assert (Hw : well_formed (example.conv_desc BINARY BINARY)
                 example.one_layer)
    by (unfold well_formed; repeat split; repeat constructor).
  refine (hidden_probability_is_energy_drop
            (example.conv_desc BINARY BINARY) example.any_finite
            example.no_noise (fun _ => example.no_noise)
            h1_a h1_s v1 v1 example.one_layer _ example.engine _
            [[[0]]] [[[1]]] 0 0 0
            Hp Hw eq_refl eq_refl _ _ _ _ _ _ eq_refl _ eq_refl);
    try (repeat constructor).
  intros [|k'] [|i'] [|j']; cbn; try reflexivity;
    repeat match goal with
    | |- context [nth ?n [] _] => destruct n; cbn
    end; reflexivity.
Defined.

(** ** The visible probability and the energy *)

Lemma pairing_comm (n0 n1 n2 : nat) (s t : tensor3) :
  shape3 n0 n1 n2 s -> shape3 n0 n1 n2 t ->
  sum3 (zip3 Rmult s t) = sum3 (zip3 Rmult t s).
Proof.
  intros Ss St.
  rewrite (tensor_as_tab _ _ _ s Ss), (tensor_as_tab _ _ _ t St).
  rewrite !zip3_tab, !sum3_tab.
  apply rsum_ext; intros k _. apply rsum_ext; intros i _.
  apply rsum_ext; intros j _. ring.
Qed.

Section EnergyVisiblePairing.

Variable desc : descriptor.
Context {T : Type}.
Variable r : layer T.
Variable h : tensor3.

Hypothesis desc_proper : proper desc.
Hypothesis r_well_formed : well_formed desc r.
Hypothesis visible_binary : visible_unit desc = BINARY.
Hypothesis hidden_binary : hidden_unit desc = BINARY.
Hypothesis h_shape : shape3 (K desc) (NH1 desc) (NH2 desc) h.

Lemma full_conv_shape :
  shape3 (NC desc) (NV1 desc) (NV2 desc)
    (first (conv_4d_full (reshape_h_a h) (w r))).
Proof.
  destruct desc_proper as (Hc & Hk & [H1 H1'] & [H2 H2']).
  destruct r_well_formed as (Sw & Lb & Lc). unfold NW1, NW2 in Sw.
  rewrite first_conv_full.
  destruct (shape4_dims _ _ _ _ _ Sw) as (-> & -> & -> & ->); try lia.
  destruct (shape3_dims _ _ _ _ h_shape) as (_ & -> & ->); try lia.
  replace (NH1 desc + (NV1 desc - NH1 desc + 1) - 1)%nat with (NV1 desc)
    by lia.
  replace (NH2 desc + (NV2 desc - NH2 desc + 1) - 1)%nat with (NV2 desc)
    by lia.
  apply shape3_tab.
Qed.

(** The energy of BINARY units, seen from the visible side. *)
Lemma energy_as_visible_pairing (v : tensor3) :
  shape3 (NC desc) (NV1 desc) (NV2 desc) v ->
  energy_impl desc r v h
  = - sum1 (zip1 Rmult (b r) (sum_r h))
    - sum3 (zip3 Rmult v (visible_pre desc r h)).
Proof.
  intros Sv.
  destruct desc_proper as (Hc & Hk & [H1 H1'] & [H2 H2']).
  destruct r_well_formed as (Sw & Lb & Lc).
  assert (Sc : shape3 (NC desc) (NV1 desc) (NV2 desc) (get_c_rep desc r))
    by (unfold get_c_rep; rewrite <- Lc; apply shape3_rep).
  unfold visible_pre.
  rewrite <- (pairing_split _ _ _ _ _ _ Sc full_conv_shape Sv).
  rewrite (pairing_comm _ _ _ v _ Sv full_conv_shape).
  rewrite <- (visible_bias_dot desc r v Lc Sv).
  unfold NW1, NW2 in Sw.
  rewrite <- (conv_adjoint (K desc) (NC desc)
                (NV1 desc - NH1 desc + 1) (NV2 desc - NH2 desc + 1)
                (NH1 desc) (NH2 desc) v h (w r));
    try assumption; try lia.
  - unfold energy_impl, energy_tmp. rewrite visible_binary, hidden_binary.
    cbn [unit_type_eqb andb]. ring.
  - replace (NH1 desc + (NV1 desc - NH1 desc + 1) - 1)%nat with (NV1 desc)
      by lia.
    replace (NH2 desc + (NV2 desc - NH2 desc + 1) - 1)%nat with (NV2 desc)
      by lia.
    exact Sv.
Qed.

End EnergyVisiblePairing.

(** X14: with BINARY visible and hidden units, the probability that the
    visible activation computes for a visible unit from a hidden
    configuration is the sigmoid of the drop of energy that switching this
    one visible unit on produces: the full convolution of the activation
    is the transpose of the valid convolution of the energy. *)
Theorem visible_probability_is_energy_drop
  (desc : descriptor) (isfinite : R -> bool)
  (h_a h_s v_a v_s : buffer)
  (r r' : layer tensor3) (e e' : random_engine)
  (v v' : tensor3) (k i j : nat) :
  proper desc ->
  well_formed desc r ->
  visible_unit desc = BINARY ->
  hidden_unit desc = BINARY ->
  shape3 (K desc) (NH1 desc) (NH2 desc) (load r h_s) ->
  shape3 (NC desc) (NV1 desc) (NV2 desc) v ->
  shape3 (NC desc) (NV1 desc) (NV2 desc) v' ->
  (k < NC desc)%nat -> (i < NV1 desc)%nat -> (j < NV2 desc)%nat ->
  at3 v k i j = 0 ->
  (forall k' i' j',
     at3 v' k' i' j'
     = if (k' =? k)%nat && (i' =? i)%nat && (j' =? j)%nat
       then 1 else at3 v k' i' j') ->
  activate_visible desc isfinite true false h_a h_s v_a v_s (r, e)
  = Done (r', e') ->
  at3 (load r' v_a) k i j
  = sigmoid (energy_impl desc r v (load r h_s)
             - energy_impl desc r v' (load r h_s)).
Proof.
  intros Hp Hw Hvis Hhid Sh Sv Sv' Hk Hi Hj H0 Hd H.
  assert (Hv : valid_units desc = true)
    by (unfold valid_units; rewrite Hvis, Hhid; reflexivity).
  pose proof (visible_pre_shape desc r Hp Hw _ Sh) as Sx.
  rewrite (energy_as_visible_pairing desc r _ Hp Hw Hvis Hhid Sh v Sv).
  rewrite (energy_as_visible_pairing desc r _ Hp Hw Hvis Hhid Sh v' Sv').
  destruct (activate_visible_probabilities desc isfinite
              h_a h_s v_a v_s r r' e e' Hv H) as [[_ Hl] _].
  rewrite Hl, load_store_same. unfold visible_activation. rewrite Hvis.
  rewrite (at3_map3 _ _ _ _ _ _ _ _ Sx Hk Hi Hj). f_equal.
  rewrite <- (pairing_difference _ _ _ k i j v v' _ Sv Sv' Sx)
    by assumption.
  ring.
Qed.

Lemma visible_probability_is_energy_drop_witness :
  exists r' e',
    activate_visible (example.conv_desc BINARY BINARY) example.any_finite
      true false h1_a h1_s v2_a v2_s (example.one_layer, example.engine)
    = Done (r', e')
    /\ at3 (load r' v2_a) 0 1 1
       = sigmoid
           (energy_impl (example.conv_desc BINARY BINARY) example.one_layer
              [[[1; 0]; [0; 0]]] example.feature
            - energy_impl (example.conv_desc BINARY BINARY) example.one_layer
                example.image example.feature).
Proof.
  eexists. eexists. split; [reflexivity|].
  assert (Hp : proper (example.conv_desc BINARY BINARY))
    by (unfold proper; cbn; lia).
  assert (Hw : well_formed (example.conv_desc BINARY BINARY)
                 example.one_layer)
    by (unfold well_formed; repeat split; repeat constructor).
  refine (visible_probability_is_energy_drop
            (example.conv_desc BINARY BINARY) example.any_finite
            h1_a h1_s v2_a v2_s example.one_layer _ example.engine _
            [[[1; 0]; [0; 0]]] example.image 0 1 1
            Hp Hw eq_refl eq_refl _ _ _ _ _ _ eq_refl _ eq_refl);
    try (repeat constructor).
  intros [|k'] [|[|i']] [|[|j']]; cbn; try reflexivity;
    repeat match goal with
    | |- context [nth ?n [] _] => destruct n; cbn
    end; reflexivity.
Defined.
